(** * Recipe Room: the socket handlers of [server.js]

    A shallow embedding of the Socket.io event handlers of the Recipe Room
    server and the properties of its room and connection bookkeeping.

    The server keeps two JavaScript [Map]s, [rooms] (room code to room
    object) and [users] (socket id to [{roomCode, username}]).  Room objects
    are mutable and shared by reference: the [ai-question] handler keeps the
    reference it read before its [await] and uses it afterwards.  Room
    objects therefore live in a heap addressed by references, and [rooms]
    maps a room code to a reference.

    What the handlers do to the outside world is recorded as a list of
    effects: [socket.join], [io.to(room).emit], [socket.emit] and the
    outbound [axios.post].  Which sockets a broadcast reaches is decided by
    Socket.io's own room membership and is not part of the handlers.
    [console.log] and [console.error] are left out.  [Date.now()] and
    [new Date().toLocaleTimeString()] are inputs of a turn.

    The event loop runs one handler at a time.  The only handler that
    suspends is [ai-question]: the part before its [await] is one turn, the
    part after it is another turn, taken when the outbound call settles, and
    any other turns may come in between.

    Payloads are taken as typed in the protocol: strings for socket ids, room
    codes, names, texts and photos, integers for numbers. *)

From stdpp Require Import base option list strings gmap pretty.
From Stdlib Require Import ZArith.

Local Open Scope string_scope.

(** ** Data model *)

(** The [recipe] payload of [join-room]: [{name, ingredients, cookingTime}]. *)
Module Recipe.
Record t := mk { name : string; ingredients : list string; cookingTime : Z }.
End Recipe.

(** The object pushed onto [room.participants] (lines 56-61). *)
Module Participant.
Record t := mk { id : string; username : string; currentStep : Z; isReady : bool }.

Definition set_currentStep (step : Z) (p : t) : t :=
  mk (id p) (username p) step (isReady p).
End Participant.

(** The objects pushed onto [room.messages] (lines 84-90, 173-179, 187-193). *)
Module Message.
Inductive kind := user | ai.

Record t := mk {
  id : Z;
  username : string;
  message : string;
  timestamp : string;
  type : kind
}.
End Message.

(** The room object created at lines 43-49.  [recipe] is [None] when the
    client sent no recipe ([undefined]); [startTime] starts as [null]. *)
Module Room.
Record t := mk {
  participants : list Participant.t;
  recipe : option Recipe.t;
  startTime : option Z;
  messages : list Message.t;
  currentStep : Z
}.

Definition create (r : option Recipe.t) : t := mk [] r None [] 0.

Definition set_participants (ps : list Participant.t) (room : t) : t :=
  mk ps (recipe room) (startTime room) (messages room) (currentStep room).

Definition push_participant (p : Participant.t) (room : t) : t :=
  set_participants (participants room ++ [p]) room.

Definition push_message (m : Message.t) (room : t) : t :=
  mk (participants room) (recipe room) (startTime room) (messages room ++ [m])
     (currentStep room).
End Room.

(** The value stored in [users] (line 64). *)
Module User.
Record t := mk { roomCode : string; username : string }.
End User.

(** What the suspended [ai-question] handler holds across its [await]: the
    socket id, the [user] object and the [room] reference read before it. *)
Module Pending.
Record t := mk { socket : string; user : User.t; room : nat }.
End Pending.

(** Server state.  [heap] holds every room object ever created, addressed by
    its index; [rooms] and [users] are the two [Map]s of lines 25-26;
    [pending] has one slot per [axios.post] issued, [None] once it settled. *)
Record State := mkState {
  heap : list Room.t;
  rooms : gmap string nat;
  users : gmap string User.t;
  pending : list (option Pending.t)
}.

Definition init : State := mkState [] ∅ ∅ [].

Definition set_heap (h : list Room.t) (st : State) : State :=
  mkState h (rooms st) (users st) (pending st).

Definition set_rooms (r : gmap string nat) (st : State) : State :=
  mkState (heap st) r (users st) (pending st).

Definition set_users (u : gmap string User.t) (st : State) : State :=
  mkState (heap st) (rooms st) u (pending st).

Definition set_pending (p : list (option Pending.t)) (st : State) : State :=
  mkState (heap st) (rooms st) (users st) p.

(** ** Events and effects *)

(** Events a client sends, with their payloads. *)
Inductive ClientEvent :=
| JoinRoom (roomCode username : string) (recipe : option Recipe.t)
| ChatMessage (message : string)
| NextStep (step : Z)
| StartTimer (duration : Z)
| AiQuestion (question : string)
| SharePhoto (photo filename : string)
| Disconnect.

(** Events the server emits, with their payloads. *)
Inductive ServerEvent :=
| user_joined (participants : list Participant.t) (recipe : option Recipe.t)
    (messages : list Message.t)
| room_full (text : string)
| new_message (m : Message.t)
| step_updated (userId username : string) (step : Z)
| timer_started (duration : Z) (startedBy : string)
| photo_shared (username photo filename timestamp : string)
| user_left (username : string) (participants : list Participant.t).

Inductive Effect :=
| SocketJoin (socket roomCode : string)
| EmitRoom (roomCode : string) (ev : ServerEvent)
| EmitSocket (socket : string) (ev : ServerEvent)
| AxiosPost (call : nat) (prompt : string).

(** The two clock readings a handler takes: [Date.now()] and
    [new Date().toLocaleTimeString()]. *)
Record Clock := mkClock { now : Z; localeTime : string }.

(** How the outbound call ends: [AiAnswered text] when
    [response.data.candidates[0].content.parts[0].text] was read, [AiFailed]
    when the post was rejected or reading that path threw. *)
Inductive AiOutcome := AiAnswered (text : string) | AiFailed.

Inductive Input :=
| FromSocket (socket : string) (clock : Clock) (ev : ClientEvent)
| AiSettled (call : nat) (clock : Clock) (res : AiOutcome).

(** A handler either returns or lets a [TypeError] escape. *)
Inductive Completion := Returned | Threw.

Record Result := mkResult {
  state : State;
  effects : list Effect;
  completion : Completion
}.

Definition ret (st : State) (effs : list Effect) : Result :=
  mkResult st effs Returned.

Definition throw (st : State) (effs : list Effect) : Result :=
  mkResult st effs Threw.

(** ** Handlers *)

(** [rooms.get(roomCode)], with the object the reference points to;
    [None] stands for [undefined].  A reference held by [rooms] always points
    into the heap (see [wf] below); were it not to, the lookup would count as
    [undefined]. *)
Definition rooms_get (st : State) (roomCode : string) : option (nat * Room.t) :=
  l ← rooms st !! roomCode; room ← heap st !! l; Some (l, room).

(** [room.participants.find(p => p.id === socket.id)] with the position of
    the entry it returns. *)
Definition find_participant (socket : string) (ps : list Participant.t)
  : option (nat * Participant.t) :=
  list_find (λ p, Participant.id p = socket) ps.

(** Lines 42-50: create the room if the code is not a key of [rooms]. *)
Definition create_room_if_absent (roomCode : string) (recipe : option Recipe.t)
    (st : State) : State :=
  match rooms st !! roomCode with
  | Some _ => st
  | None =>
      set_rooms (<[roomCode := length (heap st)]> (rooms st))
        (set_heap (heap st ++ [Room.create recipe]) st)
  end.

Definition room_full_text : string := "Room is full (max 8 participants)".

(** Lines 38-78.  After line 50 the room code is a key of [rooms], so line
    52 finds the room; the [None] branch is there for dangling references
    only. *)
Definition on_join_room (socket roomCode username : string)
    (recipe : option Recipe.t) (st : State) : Result :=
  let st1 := create_room_if_absent roomCode recipe st in
  match rooms_get st1 roomCode with
  | None => throw st1 []
  | Some (l, room) =>
      if bool_decide (length (Room.participants room) < 8) then
        let user := Participant.mk socket username 0 false in
        let room' := Room.push_participant user room in
        let st2 := set_users (<[socket := User.mk roomCode username]> (users st1))
                     (set_heap (<[l := room']> (heap st1)) st1) in
        ret st2 [SocketJoin socket roomCode;
                 EmitRoom roomCode
                   (user_joined (Room.participants room') (Room.recipe room')
                      (Room.messages room'))]
      else
        ret st1 [EmitSocket socket (room_full room_full_text)]
  end.

(** Lines 81-97. *)
Definition on_chat_message (socket : string) (clock : Clock) (text : string)
    (st : State) : Result :=
  match users st !! socket with
  | None => ret st []
  | Some user =>
      let message :=
        Message.mk (now clock) (User.username user) text (localeTime clock)
          Message.user in
      match rooms_get st (User.roomCode user) with
      | None => throw st []
      | Some (l, room) =>
          ret (set_heap (<[l := Room.push_message message room]> (heap st)) st)
            [EmitRoom (User.roomCode user) (new_message message)]
      end
  end.

(** Lines 100-115. *)
Definition on_next_step (socket : string) (step : Z) (st : State) : Result :=
  match users st !! socket with
  | None => ret st []
  | Some user =>
      match rooms_get st (User.roomCode user) with
      | None => throw st []
      | Some (l, room) =>
          match find_participant socket (Room.participants room) with
          | None => ret st []
          | Some (i, participant) =>
              let ps := <[i := Participant.set_currentStep step participant]>
                          (Room.participants room) in
              ret (set_heap (<[l := Room.set_participants ps room]> (heap st)) st)
                [EmitRoom (User.roomCode user)
                   (step_updated socket (User.username user) step)]
          end
      end
  end.

(** Lines 118-126. *)
Definition on_start_timer (socket : string) (duration : Z) (st : State) : Result :=
  match users st !! socket with
  | None => ret st []
  | Some user =>
      ret st [EmitRoom (User.roomCode user)
                (timer_started duration (User.username user))]
  end.

(** Lines 203-213. *)
Definition on_share_photo (socket : string) (clock : Clock)
    (photo filename : string) (st : State) : Result :=
  match users st !! socket with
  | None => ret st []
  | Some user =>
      ret st [EmitRoom (User.roomCode user)
                (photo_shared (User.username user) photo filename
                   (localeTime clock))]
  end.

(** Lines 216-237. *)
Definition on_disconnect (socket : string) (st : State) : Result :=
  match users st !! socket with
  | None => ret st []
  | Some user =>
      let r :=
        match rooms_get st (User.roomCode user) with
        | None => ret st []
        | Some (l, room) =>
            let ps := filter (λ p, Participant.id p ≠ socket)
                        (Room.participants room) in
            let st1 := set_heap (<[l := Room.set_participants ps room]> (heap st)) st in
            let st2 := if bool_decide (length ps = 0)
                       then set_rooms (delete (User.roomCode user) (rooms st1)) st1
                       else st1 in
            ret st2 [EmitRoom (User.roomCode user)
                       (user_left (User.username user) ps)]
        end in
      ret (set_users (delete socket (users (state r))) (state r)) (effects r)
  end.

(** *** The AI question handler (lines 129-200) *)

Definition nl : string := String (Ascii.ascii_of_nat 10) "".
Definition pad : string := "        ".

(** [arr.join(', ')]. *)
Definition join_comma (xs : list string) : string := String.concat ", " xs.

(** The template literal of lines 138-157.  Numbers are printed in decimal,
    which is how JavaScript prints an integer of absolute value below 2^53
    ([safe_integer] below); larger numbers it rounds or prints with an
    exponent, and for those this text is not the one the server sends. *)
Definition contextPrompt (currentRecipe : option Recipe.t) (userCurrentStep : Z)
    (question : string) : string :=
  let dish :=
    match currentRecipe with
    | Some r => if bool_decide (Recipe.name r = "") then "a recipe" else Recipe.name r
    | None => "a recipe"
    end in
  let context :=
    match currentRecipe with
    | Some r =>
        nl ++ pad ++ "Recipe: " ++ Recipe.name r ++
        nl ++ pad ++ "Ingredients: " ++ join_comma (Recipe.ingredients r) ++
        nl ++ pad ++ "Cooking time: " ++ pretty (Recipe.cookingTime r) ++ " minutes" ++
        nl ++ pad
    | None => "No specific recipe selected"
    end in
  "You are an expert cooking assistant helping users cook " ++ dish ++
    " in real-time. " ++
  nl ++ pad ++
  nl ++ pad ++ "Current recipe context:" ++
  nl ++ pad ++ context ++
  nl ++ pad ++
  nl ++ pad ++ "User is currently on step: " ++ pretty userCurrentStep ++ "." ++
  nl ++ pad ++
  nl ++ pad ++ "User question: " ++ question ++
  nl ++ pad ++
  nl ++ pad ++ "Please provide helpful, concise cooking advice. Focus on:" ++
  nl ++ pad ++ "- Cooking techniques and tips" ++
  nl ++ pad ++ "- Ingredient substitutions if needed  " ++
  nl ++ pad ++ "- Timing and temperature guidance" ++
  nl ++ pad ++ "- Troubleshooting cooking issues" ++
  nl ++ pad ++
  nl ++ pad ++ "Keep responses friendly and practical, as if you're cooking alongside them.".

Definition ai_chef : string := "AI Chef 🤖".

Definition fallback_text : string :=
  "Sorry, I'm having trouble right now. Try asking other participants or check back in a moment!".

(** Lines 130-169, up to the [await].  With [user] set and [rooms.get]
    undefined, line 134 throws inside [try]; the [catch] block then throws
    again at line 196, so the handler's promise is rejected. *)
Definition on_ai_question (socket question : string) (st : State) : Result :=
  match users st !! socket with
  | None => ret st []
  | Some user =>
      match rooms_get st (User.roomCode user) with
      | None => throw st []
      | Some (l, room) =>
          let currentRecipe := Room.recipe room in
          let userCurrentStep :=
            match find_participant socket (Room.participants room) with
            | Some (_, p) => Participant.currentStep p
            | None => 0%Z
            end in
          ret (set_pending (pending st ++ [Some (Pending.mk socket user l)]) st)
            [AxiosPost (length (pending st))
               (contextPrompt currentRecipe userCurrentStep question)]
      end
  end.

(** Lines 171-198, after the [await].  The [try] branch pushes onto the room
    object captured before the [await], whether or not [rooms] still refers
    to it; the [catch] branch looks the room up again in [rooms] and throws
    at line 196 when it is gone. *)
Definition on_ai_settled (pc : Pending.t) (clock : Clock) (res : AiOutcome)
    (st : State) : Result :=
  let roomCode := User.roomCode (Pending.user pc) in
  match res with
  | AiAnswered aiMessage =>
      let aiResponse :=
        Message.mk (now clock) ai_chef aiMessage (localeTime clock) Message.ai in
      ret (set_heap (alter (Room.push_message aiResponse) (Pending.room pc) (heap st)) st)
        [EmitRoom roomCode (new_message aiResponse)]
  | AiFailed =>
      let errorResponse :=
        Message.mk (now clock) ai_chef fallback_text (localeTime clock) Message.ai in
      match rooms_get st roomCode with
      | None => throw st []
      | Some (l, room) =>
          ret (set_heap (<[l := Room.push_message errorResponse room]> (heap st)) st)
            [EmitRoom roomCode (new_message errorResponse)]
      end
  end.

(** ** The event loop *)

Definition on_client_event (socket : string) (clock : Clock) (ev : ClientEvent)
    (st : State) : Result :=
  match ev with
  | JoinRoom roomCode username recipe => on_join_room socket roomCode username recipe st
  | ChatMessage message => on_chat_message socket clock message st
  | NextStep step => on_next_step socket step st
  | StartTimer duration => on_start_timer socket duration st
  | AiQuestion question => on_ai_question socket question st
  | SharePhoto photo filename => on_share_photo socket clock photo filename st
  | Disconnect => on_disconnect socket st
  end.

(** One turn of the event loop: a client event, or the settling of an
    outbound call that is still pending. *)
Definition step (st : State) (i : Input) : Result :=
  match i with
  | FromSocket socket clock ev => on_client_event socket clock ev st
  | AiSettled call clock res =>
      match pending st !! call with
      | Some (Some pc) =>
          on_ai_settled pc clock res (set_pending (<[call := None]> (pending st)) st)
      | _ => ret st []
      end
  end.

(** Turns are processed one after the other; an escaping [TypeError] ends
    the run. *)
Fixpoint run (st : State) (ins : list Input) : Result :=
  match ins with
  | [] => ret st []
  | i :: ins' =>
      let r := step st i in
      match completion r with
      | Threw => r
      | Returned =>
          let r' := run (state r) ins' in
          mkResult (state r') (effects r ++ effects r') (completion r')
      end
  end.

(** * Specification vocabulary *)

(** ** Well-formed states

    What the two maps and the heap satisfy between turns: a room code in
    [rooms] refers to a room object with at least one participant, no two
    codes share a room object, a room object outside [rooms] has no
    participant, and a registered connection has an entry in the room its
    registration names.  In particular no reference in [rooms] dangles. *)

Definition ids (room : Room.t) : list string :=
  Participant.id <$> Room.participants room.

Record wf (st : State) : Prop := mkWf {
  wf_rooms : ∀ rc l, rooms st !! rc = Some l →
    ∃ room, heap st !! l = Some room ∧ Room.participants room ≠ [];
  wf_inj : ∀ rc rc' l,
    rooms st !! rc = Some l → rooms st !! rc' = Some l → rc = rc';
  wf_orphan : ∀ l room, heap st !! l = Some room →
    Room.participants room ≠ [] → ∃ rc, rooms st !! rc = Some l;
  wf_users : ∀ s u, users st !! s = Some u →
    ∃ l room, rooms st !! User.roomCode u = Some l ∧
              heap st !! l = Some room ∧ s ∈ ids room
}.

(** ** What a turn can do to the heap

    Every mutation of a room object is one of four: a message pushed, a
    participant with step 0 pushed, the entries of one connection filtered
    out, or the step of one entry overwritten.  A turn leaves the heap as it
    is, replaces one room object by such a mutation of it, or appends one
    freshly created room with its first participant. *)

Inductive room_step (room : Room.t) : Room.t → Prop :=
| pushed_message m : room_step room (Room.push_message m room)
| pushed_participant socket username :
    room_step room
      (Room.push_participant (Participant.mk socket username 0 false) room)
| filtered_out socket :
    room_step room
      (Room.set_participants
         (filter (λ p, Participant.id p ≠ socket) (Room.participants room)) room)
| step_set i p step :
    Room.participants room !! i = Some p →
    room_step room
      (Room.set_participants
         (<[i := Participant.set_currentStep step p]> (Room.participants room))
         room).

Inductive heap_step (h : list Room.t) : list Room.t → Prop :=
| heap_same : heap_step h h
| heap_update l room room' :
    h !! l = Some room → room_step room room' → heap_step h (<[l := room']> h)
| heap_alloc socket username recipe :
    heap_step h
      (h ++ [Room.push_participant (Participant.mk socket username 0 false)
               (Room.create recipe)]).

(** ** Kinds of inputs *)

(** The events whose handlers start by looking the connection up in
    [users]: all but join-room. *)
Definition room_scoped (ev : ClientEvent) : bool :=
  match ev with
  | JoinRoom _ _ _ => false
  | _ => true
  end.

(** A join-room event for room code [rc], from any connection. *)
Definition is_join_to (rc : string) (i : Input) : bool :=
  match i with
  | FromSocket _ _ (JoinRoom rc' _ _) => bool_decide (rc' = rc)
  | _ => false
  end.

(** An input that is not an event of connection [socket]. *)
Definition not_from (socket : string) (i : Input) : bool :=
  match i with
  | FromSocket s _ _ => bool_decide (s ≠ socket)
  | AiSettled _ _ _ => true
  end.

(** A chat-message event as sent: socket, clock readings, text. *)
Definition Chat : Type := string * Clock * string.

Definition chat_input (ch : Chat) : Input :=
  let '(socket, clock, text) := ch in FromSocket socket clock (ChatMessage text).

(** The sender of [ch] is registered in room [rc]. *)
Definition sender_in (reg : gmap string User.t) (rc : string) (ch : Chat) : Prop :=
  let '(socket, _, _) := ch in
  ∃ user, reg !! socket = Some user ∧ User.roomCode user = rc.

(** [m] is the message object the chat handler builds for [ch]. *)
Definition sent_as (reg : gmap string User.t) (ch : Chat) (m : Message.t) : Prop :=
  let '(socket, clock, text) := ch in
  ∃ user, reg !! socket = Some user ∧
    m = Message.mk (now clock) (User.username user) text (localeTime clock)
          Message.user.

(** The messages broadcast as [new-message], in order. *)
Definition new_messages (effs : list Effect) : list Message.t :=
  omap (λ e, match e with
             | EmitRoom _ (new_message m) => Some m
             | _ => None
             end) effs.

(** ** Participants of a room code *)

(** The participant list a room code currently leads to; empty when the code
    is not in [rooms]. *)
Definition participants_of (st : State) (rc : string) : list Participant.t :=
  match rooms_get st rc with
  | Some (_, room) => Room.participants room
  | None => []
  end.

(** A room keeps its place in [rooms] and its entry for [socket]. *)
Definition keeps_entry (st : State) (socket rc : string) (l : nat) : Prop :=
  rooms st !! rc = Some l ∧
  ∃ room, heap st !! l = Some room ∧ socket ∈ ids room.

(** ** The placeholder fields

    [currentStep] and [startTime] of a room and [isReady] of a participant
    are set when the object is created.  [forget_*] overwrites them with
    their initial values, in the state and in what is emitted. *)

Definition not_ready (p : Participant.t) : Prop := Participant.isReady p = false.

Definition placeholders_intact (room : Room.t) : Prop :=
  Room.currentStep room = 0%Z ∧
  Room.startTime room = None ∧
  Forall not_ready (Room.participants room).

Definition forget_participant (p : Participant.t) : Participant.t :=
  Participant.mk (Participant.id p) (Participant.username p)
    (Participant.currentStep p) false.

Definition forget_room (room : Room.t) : Room.t :=
  Room.mk (forget_participant <$> Room.participants room) (Room.recipe room)
    None (Room.messages room) 0.

Definition forget_state (st : State) : State :=
  set_heap (forget_room <$> heap st) st.

Definition forget_event (ev : ServerEvent) : ServerEvent :=
  match ev with
  | user_joined ps r ms => user_joined (forget_participant <$> ps) r ms
  | user_left u ps => user_left u (forget_participant <$> ps)
  | _ => ev
  end.

Definition forget_effect (e : Effect) : Effect :=
  match e with
  | EmitRoom rc ev => EmitRoom rc (forget_event ev)
  | EmitSocket s ev => EmitSocket s (forget_event ev)
  | _ => e
  end.

Definition forget_result (r : Result) : Result :=
  mkResult (forget_state (state r)) (forget_effect <$> effects r) (completion r).

(** ** Further vocabulary *)

(** The settling of a failed outbound call: the one input whose turn can
    let an error escape. *)
Definition failed_call (i : Input) : bool :=
  match i with
  | AiSettled _ _ AiFailed => true
  | _ => false
  end.

(** Line 55 lets at most 8 entries into a participant list. *)
Definition within_capacity (room : Room.t) : Prop :=
  (length (Room.participants room) ≤ 8)%nat.

(** The entry a join-room event pushes when it is accepted (lines 56-61). *)
Definition join_entry (i : Input) : option Participant.t :=
  match i with
  | FromSocket socket _ (JoinRoom _ username _) =>
      Some (Participant.mk socket username 0 false)
  | _ => None
  end.

(** start-timer and share-photo events. *)
Definition is_relay (i : Input) : bool :=
  match i with
  | FromSocket _ _ (StartTimer _) | FromSocket _ _ (SharePhoto _ _) => true
  | _ => false
  end.

(** What such an event broadcasts, given the registry: nothing when the
    connection is not registered (lines 119-125 and 204-212). *)
Definition relay_effect (reg : gmap string User.t) (i : Input) : option Effect :=
  match i with
  | FromSocket socket _ (StartTimer duration) =>
      user ← reg !! socket;
      Some (EmitRoom (User.roomCode user)
              (timer_started duration (User.username user)))
  | FromSocket socket clock (SharePhoto photo filename) =>
      user ← reg !! socket;
      Some (EmitRoom (User.roomCode user)
              (photo_shared (User.username user) photo filename
                 (localeTime clock)))
  | _ => None
  end.

(** The integers a template literal prints digit for digit: those of
    absolute value below 2^53 (JavaScript's [Number.isSafeInteger]). *)
Definition safe_integer (n : Z) : Prop :=
  (- 9007199254740991 ≤ n ≤ 9007199254740991)%Z.

(** A recipe whose cooking time is such an integer, or no recipe. *)
Definition safe_recipe (recipe : option Recipe.t) : Prop :=
  match recipe with
  | Some r => safe_integer (Recipe.cookingTime r)
  | None => True
  end.

(** The input that settles outbound call number [call]. *)
Definition settles (call : nat) (i : Input) : bool :=
  match i with
  | AiSettled k _ _ => bool_decide (k = call)
  | _ => false
  end.

(** An effect that concerns room code [rc] only: a broadcast to [rc], or the
    outbound call. *)
Definition addressed_to (rc : string) (e : Effect) : bool :=
  match e with
  | EmitRoom rc' _ => bool_decide (rc' = rc)
  | AxiosPost _ _ => true
  | _ => false
  end.

(** The message log a room code currently leads to; empty when the code is
    not in [rooms]. *)
Definition messages_of (st : State) (rc : string) : list Message.t :=
  match rooms_get st rc with
  | Some (_, room) => Room.messages room
  | None => []
  end.

(** ** Sample inputs *)

Definition noon : Clock := mkClock 1700000000000 "12:00:00 PM".

Definition soup : option Recipe.t :=
  Some (Recipe.mk "Soup" ["water"; "salt"] 30).

Definition stew : option Recipe.t :=
  Some (Recipe.mk "Stew" ["beef"] 120).

Definition join_ev (socket roomCode username : string) (recipe : option Recipe.t)
  : Input :=
  FromSocket socket noon (JoinRoom roomCode username recipe).

(** Alice and Bob in room [ABC1]. *)
Definition two_cooks : State :=
  state (run init [join_ev "s1" "ABC1" "Alice" soup; join_ev "s2" "ABC1" "Bob" stew]).

(** The same state with other values written into the placeholder fields. *)
Definition two_cooks_marked : State :=
  set_heap
    ((λ room,
        Room.mk
          ((λ p, Participant.mk (Participant.id p) (Participant.username p)
                   (Participant.currentStep p) true) <$> Room.participants room)
          (Room.recipe room) (Some 1690000000000%Z) (Room.messages room) 7)
       <$> heap two_cooks)
    two_cooks.

(** One connection joins room [R] eight times. *)
Definition eight_joins_by_one : list Input :=
  replicate 8 (join_ev "s1" "R" "Alice" soup).

(** Alice alone in [ABC1], with one chat message in the log. *)
Definition alice_alone : list Input :=
  [join_ev "s1" "ABC1" "Alice" soup; FromSocket "s1" noon (ChatMessage "hi")].

(** Alice is alone in [ABC1], asks the assistant, and disconnects while the
    call is in flight; then the call settles with [outcome]. *)
Definition asker_leaves_during_call (outcome : AiOutcome) : list Input :=
  [join_ev "s1" "ABC1" "Alice" soup;
   FromSocket "s1" noon (AiQuestion "How much salt?");
   FromSocket "s1" noon Disconnect;
   AiSettled 0 noon outcome].

(** Alice and Bob in [ABC1], Cy in [XYZ9]. *)
Definition two_rooms : State :=
  state (run init [join_ev "s1" "ABC1" "Alice" soup; join_ev "s2" "ABC1" "Bob" stew;
                   join_ev "s3" "XYZ9" "Cy" None]).

(** * Proofs *)

(** ** Basic facts about the heap and the two maps *)

Lemma rooms_get_Some st roomCode l room :
  rooms_get st roomCode = Some (l, room) ↔
  rooms st !! roomCode = Some l ∧ heap st !! l = Some room.
Proof.
  unfold rooms_get. destruct (rooms st !! roomCode) as [l'|]; simpl.
  - destruct (heap st !! l') as [room'|] eqn:E; simpl; split.
    + by intros [= <- <-].
    + intros [[= <-] Hr]. rewrite E in Hr. by injection Hr as ->.
    + done.
    + intros [[= <-] Hr]. by rewrite E in Hr.
  - split; [done|]. by intros [? _].
Qed.

Lemma rooms_get_None st roomCode :
  rooms st !! roomCode = None → rooms_get st roomCode = None.
Proof. unfold rooms_get. by intros ->. Qed.

Lemma heap_insert_lookup (h : list Room.t) l l' room room' :
  h !! l = Some room →
  <[l := room']> h !! l' = if decide (l = l') then Some room' else h !! l'.
Proof.
  intros H. destruct (decide (l = l')) as [<-|Hne].
  - apply list_lookup_insert_eq. by eapply lookup_lt_Some.
  - by apply list_lookup_insert_ne.
Qed.

Lemma heap_alter_insert (h : list Room.t) l room f :
  h !! l = Some room → alter f l h = <[l := f room]> h.
Proof.
  intros H. apply list_eq. intros j.
  rewrite (heap_insert_lookup _ _ _ _ _ H), list_lookup_alter.
  destruct (decide (l = j)) as [<-|]; [by rewrite H|done].
Qed.

Lemma heap_alter_dangling (h : list Room.t) l f :
  h !! l = None → alter f l h = h.
Proof.
  intros H. apply list_eq. intros j. rewrite list_lookup_alter.
  destruct (decide (l = j)) as [<-|]; [by rewrite H|done].
Qed.

Lemma heap_snoc_lookup (h : list Room.t) room :
  (h ++ [room])%list !! length h = Some room.
Proof. by rewrite lookup_app_r, Nat.sub_diag. Qed.

Lemma heap_snoc_insert (h : list Room.t) room room' :
  <[length h := room']> (h ++ [room])%list = (h ++ [room'])%list.
Proof.
  rewrite insert_app_r_alt by lia. by rewrite Nat.sub_diag.
Qed.

(** The fields a run's result is assembled from. *)
Lemma run_cons st i ins :
  run st (i :: ins) =
  match completion (step st i) with
  | Threw => step st i
  | Returned =>
      mkResult (state (run (state (step st i)) ins))
        (effects (step st i) ++ effects (run (state (step st i)) ins))
        (completion (run (state (step st i)) ins))
  end.
Proof. done. Qed.

(** A property kept by every turn holds after every run. *)
Lemma run_invariant (P : State → Prop) :
  (∀ st i, P st → P (state (step st i))) →
  ∀ ins st, P st → P (state (run st ins)).
Proof.
  intros Hstep. induction ins as [|i ins IH]; intros st HP; [done|].
  rewrite run_cons. specialize (Hstep st i HP).
  destruct (completion (step st i)); [|done]. simpl. by apply IH.
Qed.

(** ** Well-formedness is kept by every turn *)

Lemma ids_nonempty room room' :
  ids room' = ids room →
  Room.participants room ≠ [] → Room.participants room' ≠ [].
Proof.
  unfold ids. intros E H H'. rewrite H' in E.
  destruct (Room.participants room); [done|discriminate].
Qed.

Lemma wf_init : wf init.
Proof. split; simpl; intros *; by rewrite ?lookup_empty, ?lookup_nil. Qed.

(** Replacing a room object by one with the same participant ids. *)
Lemma wf_same_ids st l room room' :
  wf st → heap st !! l = Some room → ids room' = ids room →
  wf (set_heap (<[l := room']> (heap st)) st).
Proof.
  intros [W1 W2 W3 W4] Hl E. split; simpl.
  - intros rc l0 Hrc. rewrite (heap_insert_lookup _ _ _ _ _ Hl).
    destruct (W1 _ _ Hrc) as (r0 & Hr0 & Hne).
    destruct (decide (l = l0)) as [<-|]; [|by eauto].
    exists room'. split; [done|]. apply (ids_nonempty room); [done|congruence].
  - done.
  - intros l0 r0. rewrite (heap_insert_lookup _ _ _ _ _ Hl).
    destruct (decide (l = l0)) as [<-|]; [|by eauto].
    intros [= <-] Hne. apply (W3 _ _ Hl). by apply (ids_nonempty room').
  - intros s u Hu. destruct (W4 _ _ Hu) as (l0 & r0 & Hrc & Hr0 & Hin).
    exists l0. rewrite (heap_insert_lookup _ _ _ _ _ Hl).
    destruct (decide (l = l0)) as [<-|]; [|by eauto].
    exists room'. split_and!; [done..|]. rewrite E. congruence.
Qed.

Lemma wf_set_pending st p : wf st → wf (set_pending p st).
Proof. by intros []. Qed.

Lemma ids_set_step room i p step :
  Room.participants room !! i = Some p →
  ids (Room.set_participants
         (<[i := Participant.set_currentStep step p]> (Room.participants room))
         room) = ids room.
Proof.
  intros H. unfold ids. simpl. rewrite list_fmap_insert. simpl.
  apply list_insert_id. by rewrite list_lookup_fmap, H.
Qed.

Lemma find_participant_Some socket ps i p :
  find_participant socket ps = Some (i, p) →
  ps !! i = Some p ∧ Participant.id p = socket.
Proof.
  unfold find_participant. rewrite list_find_Some. by intros (? & ? & _).
Qed.

Lemma wf_chat_message socket clock text st :
  wf st → wf (state (on_chat_message socket clock text st)).
Proof.
  intros W. unfold on_chat_message.
  destruct (users st !! socket) as [user|]; [|done].
  destruct (rooms_get st (User.roomCode user)) as [[l room]|] eqn:E; [|done].
  apply rooms_get_Some in E as [_ Hl]. simpl.
  by apply (wf_same_ids _ _ room).
Qed.

Lemma wf_next_step socket step st :
  wf st → wf (state (on_next_step socket step st)).
Proof.
  intros W. unfold on_next_step.
  destruct (users st !! socket) as [user|]; [|done].
  destruct (rooms_get st (User.roomCode user)) as [[l room]|] eqn:E; [|done].
  apply rooms_get_Some in E as [_ Hl].
  destruct (find_participant _ _) as [[i p]|] eqn:F; [|done].
  apply find_participant_Some in F as [Hi _]. simpl.
  apply (wf_same_ids _ _ room); [done..|]. by apply ids_set_step.
Qed.

Lemma wf_ai_question socket question st :
  wf st → wf (state (on_ai_question socket question st)).
Proof.
  intros W. unfold on_ai_question.
  destruct (users st !! socket) as [user|]; [|done].
  destruct (rooms_get st (User.roomCode user)) as [[l room]|]; [|done].
  simpl. by apply wf_set_pending.
Qed.

Lemma wf_ai_settled pc clock res st :
  wf st → wf (state (on_ai_settled pc clock res st)).
Proof.
  intros W. unfold on_ai_settled. destruct res as [text|].
  - simpl. destruct (heap st !! Pending.room pc) as [room|] eqn:Hl.
    + rewrite (heap_alter_insert _ _ _ _ Hl). by apply (wf_same_ids _ _ room).
    + rewrite (heap_alter_dangling _ _ _ Hl). by destruct st.
  - destruct (rooms_get st _) as [[l room]|] eqn:E; [|done].
    apply rooms_get_Some in E as [_ Hl]. simpl.
    by apply (wf_same_ids _ _ room).
Qed.

Lemma ids_push_participant p room :
  ids (Room.push_participant p room) = (ids room ++ [Participant.id p])%list.
Proof. unfold ids. simpl. by rewrite fmap_app. Qed.

Lemma ids_filter_other socket s room :
  s ∈ ids room → s ≠ socket →
  s ∈ Participant.id <$>
        filter (λ p, Participant.id p ≠ socket) (Room.participants room).
Proof.
  unfold ids. rewrite !list_elem_of_fmap. intros (p & -> & Hp) Hne.
  exists p. split; [done|]. by apply list_elem_of_filter.
Qed.

Lemma wf_join_room socket rc username recipe st :
  wf st → wf (state (on_join_room socket rc username recipe st)).
Proof.
  intros W. pose proof W as [W1 W2 W3 W4].
  unfold on_join_room, create_room_if_absent.
  destruct (rooms st !! rc) as [l|] eqn:Hrc.
  - destruct (W1 _ _ Hrc) as (room & Hl & Hne).
    assert (rooms_get st rc = Some (l, room)) as -> by by apply rooms_get_Some.
    case_bool_decide; [|done]. simpl.
    set (room' := Room.push_participant _ room).
    assert (∀ s, s ∈ ids room → s ∈ ids room') as Hsub.
    { intros s Hs. unfold room'. rewrite ids_push_participant.
      apply elem_of_app. by left. }
    split; simpl.
    + intros rc0 l0 H0. rewrite (heap_insert_lookup _ _ _ _ _ Hl).
      destruct (decide (l = l0)) as [<-|]; [|by eauto].
      exists room'. split; [done|]. unfold room'. simpl.
      by destruct (Room.participants room).
    + done.
    + intros l0 r0. rewrite (heap_insert_lookup _ _ _ _ _ Hl).
      destruct (decide (l = l0)) as [<-|]; [by eauto|by eauto].
    + intros s u. rewrite lookup_insert. case_decide as Hs.
      * intros [= <-]. subst s. simpl. exists l, room'.
        rewrite (heap_insert_lookup _ _ _ _ _ Hl), decide_True by done.
        split_and!; [done..|]. unfold room'. rewrite ids_push_participant.
        apply elem_of_app. right. by apply list_elem_of_singleton.
      * intros Hu. destruct (W4 _ _ Hu) as (l0 & r0 & H0 & Hr0 & Hin).
        exists l0. rewrite (heap_insert_lookup _ _ _ _ _ Hl).
        destruct (decide (l = l0)) as [<-|]; [|by eauto].
        exists room'. split_and!; [done..|]. apply Hsub. congruence.
  - set (n := length (heap st)). set (user := Participant.mk _ _ _ _).
    assert (rooms_get
              (set_rooms (<[rc:=n]> (rooms st))
                 (set_heap (heap st ++ [Room.create recipe])%list st)) rc
            = Some (n, Room.create recipe)) as ->.
    { apply rooms_get_Some. simpl. split; [by rewrite lookup_insert_eq|].
      apply heap_snoc_lookup. }
    simpl. set (room' := Room.push_participant user (Room.create recipe)).
    pose proof (heap_snoc_insert (heap st) (Room.create recipe) room') as Hins.
    fold n in Hins. rewrite Hins. clear Hins.
    assert (∀ l0 r0, heap st !! l0 = Some r0 →
              (heap st ++ [room'])%list !! l0 = Some r0 ∧ l0 ≠ n) as Hold.
    { intros l0 r0 H0. pose proof (lookup_lt_Some _ _ _ H0).
      split; [|unfold n; lia]. by rewrite lookup_app_l. }
    assert ((heap st ++ [room'])%list !! n = Some room') as Hnew
      by apply heap_snoc_lookup.
    split; simpl.
    + intros rc0 l0. rewrite lookup_insert. case_decide.
      * intros [= <-]. by exists room'.
      * intros H0. destruct (W1 _ _ H0) as (r0 & Hr0 & ?).
        exists r0. split; [|done]. by apply Hold.
    + intros rc0 rc1 l0. rewrite !lookup_insert.
      repeat case_decide; subst; try done.
      * intros [= <-] H1. destruct (W1 _ _ H1) as (r0 & Hr0 & _).
        by destruct (Hold _ _ Hr0).
      * intros H1 [= <-]. destruct (W1 _ _ H1) as (r0 & Hr0 & _).
        by destruct (Hold _ _ Hr0).
      * apply W2.
    + intros l0 r0 H0 Hne. destruct (decide (l0 = n)) as [->|Hn].
      * exists rc. by rewrite lookup_insert_eq.
      * assert (heap st !! l0 = Some r0) as Hr0.
        { rewrite lookup_app_l in H0; [done|].
          apply lookup_lt_Some in H0. rewrite length_app in H0.
          simpl in H0. unfold n in Hn. lia. }
        destruct (W3 _ _ Hr0 Hne) as (rc0 & H1). exists rc0.
        rewrite lookup_insert_ne; [done|]. congruence.
    + intros s u. rewrite lookup_insert. case_decide as Hs.
      * intros [= <-]. subst s. simpl. exists n, room'.
        rewrite lookup_insert_eq. split_and!; [done..|].
        unfold room'. rewrite ids_push_participant.
        apply elem_of_app. right. by apply list_elem_of_singleton.
      * intros Hu. destruct (W4 _ _ Hu) as (l0 & r0 & H0 & Hr0 & Hin).
        exists l0, r0. rewrite lookup_insert_ne by congruence.
        split_and!; [done| |done]. by apply Hold.
Qed.

Lemma wf_disconnect socket st :
  wf st → wf (state (on_disconnect socket st)).
Proof.
  intros W. pose proof W as [W1 W2 W3 W4]. unfold on_disconnect.
  destruct (users st !! socket) as [user|] eqn:Hu; [|done].
  destruct (W4 _ _ Hu) as (l & room & Hrc & Hl & Hin).
  assert (rooms_get st (User.roomCode user) = Some (l, room)) as ->
    by by apply rooms_get_Some.
  simpl. set (ps := filter _ (Room.participants room)).
  set (room' := Room.set_participants ps room).
  assert (∀ s, s ≠ socket → s ∈ ids room → s ∈ ids room') as Hkeep.
  { intros s Hs Hs'. by apply ids_filter_other. }
  case_bool_decide as Hps.
  - assert (ps = []) as Hnil by by destruct ps.
    assert (ids room' = []) as Hids by (unfold ids; simpl; by rewrite Hnil).
    split; simpl.
    + intros rc0 l0. rewrite lookup_delete. case_decide; [done|].
      intros H0. rewrite (heap_insert_lookup _ _ _ _ _ Hl).
      destruct (decide (l = l0)) as [<-|]; [|by eauto].
      by destruct (W2 _ _ _ Hrc H0).
    + intros rc0 rc1 l0. rewrite !lookup_delete.
      repeat case_decide; try done. apply W2.
    + intros l0 r0. rewrite (heap_insert_lookup _ _ _ _ _ Hl).
      destruct (decide (l = l0)) as [<-|Hne].
      * intros [= <-]. simpl. by rewrite Hnil.
      * intros H0 Hr0. destruct (W3 _ _ H0 Hr0) as (rc0 & H1).
        exists rc0. rewrite lookup_delete_ne; [done|]. congruence.
    + intros s u. rewrite lookup_delete. case_decide as Hs; [done|].
      intros Hs'. destruct (W4 _ _ Hs') as (l0 & r0 & H0 & Hr0 & Hin0).
      destruct (decide (l = l0)) as [<-|Hne].
      * assert (s ∈ ids room') as Hbad by (apply Hkeep; congruence).
        rewrite Hids in Hbad. by apply not_elem_of_nil in Hbad.
      * exists l0, r0. rewrite lookup_delete_ne by congruence.
        rewrite (heap_insert_lookup _ _ _ _ _ Hl), decide_False by done.
        done.
  - assert (Room.participants room' ≠ []) as Hne'.
    { simpl. intros E. by rewrite E in Hps. }
    split; simpl.
    + intros rc0 l0 H0. rewrite (heap_insert_lookup _ _ _ _ _ Hl).
      destruct (decide (l = l0)) as [<-|]; by eauto.
    + done.
    + intros l0 r0. rewrite (heap_insert_lookup _ _ _ _ _ Hl).
      destruct (decide (l = l0)) as [<-|]; by eauto.
    + intros s u. rewrite lookup_delete. case_decide as Hs; [done|].
      intros Hs'. destruct (W4 _ _ Hs') as (l0 & r0 & H0 & Hr0 & Hin0).
      exists l0. rewrite (heap_insert_lookup _ _ _ _ _ Hl).
      destruct (decide (l = l0)) as [<-|Hne]; [|by eauto].
      exists room'. split_and!; [done..|]. apply Hkeep; congruence.
Qed.

Lemma wf_step st i : wf st → wf (state (step st i)).
Proof.
  intros W. destruct i as [socket clock ev|call clock res]; simpl.
  - destruct ev; simpl.
    + by apply wf_join_room.
    + by apply wf_chat_message.
    + by apply wf_next_step.
    + unfold on_start_timer. by destruct (users st !! socket).
    + by apply wf_ai_question.
    + unfold on_share_photo. by destruct (users st !! socket).
    + by apply wf_disconnect.
  - destruct (pending st !! call) as [[pc|]|]; [|done..].
    apply wf_ai_settled. by apply wf_set_pending.
Qed.

Lemma wf_run ins : wf (state (run init ins)).
Proof. apply (run_invariant wf); [apply wf_step|apply wf_init]. Qed.

(** ** Events from unregistered connections *)

(** C4. A room-scoped event (chat-message, next-step, start-timer,
    ai-question, share-photo, disconnect) from a connection that is not a key
    of [users] returns without any effect, without throwing, and leaves the
    whole state (rooms, registry, heap, pending calls) as it was. *)
Theorem unregistered_event_is_noop st socket clock ev :
  users st !! socket = None →
  room_scoped ev = true →
  step st (FromSocket socket clock ev) = ret st [].
Proof.
  intros Hu Hev. destruct ev; try discriminate; simpl.
  - unfold on_chat_message. by rewrite Hu.
  - unfold on_next_step. by rewrite Hu.
  - unfold on_start_timer. by rewrite Hu.
  - unfold on_ai_question. by rewrite Hu.
  - unfold on_share_photo. by rewrite Hu.
  - unfold on_disconnect. by rewrite Hu.
Qed.

Lemma unregistered_event_is_noop_witness :
  users two_cooks !! "s9" = None ∧
  room_scoped (ChatMessage "anyone?") = true ∧
  step two_cooks (FromSocket "s9" noon (ChatMessage "anyone?")) = ret two_cooks [].
Proof.
  split; [reflexivity|]. split; [reflexivity|].
  apply unregistered_event_is_noop; reflexivity.
Defined.

(** ** Step updates *)

(** C5. When the connection is registered, its room exists and
    [find] returns entry [p] at position [i], a next-step event with step
    [S] stores exactly [S] in that entry and broadcasts [step-updated] with
    exactly [S]; [S] is any integer, negative ones included.  Nothing else
    in the participant list changes. *)
Theorem next_step_verbatim st socket clock S user l room i p :
  users st !! socket = Some user →
  rooms_get st (User.roomCode user) = Some (l, room) →
  find_participant socket (Room.participants room) = Some (i, p) →
  let res := step st (FromSocket socket clock (NextStep S)) in
  let p' := Participant.set_currentStep S p in
  completion res = Returned ∧
  effects res =
    [EmitRoom (User.roomCode user)
       (step_updated socket (User.username user) S)] ∧
  Participant.currentStep p' = S ∧
  ∃ room',
    rooms_get (state res) (User.roomCode user) = Some (l, room') ∧
    Room.participants room' = <[i := p']> (Room.participants room) ∧
    find_participant socket (Room.participants room') = Some (i, p').
Proof.
  intros Hu Hr Hf. simpl. unfold on_next_step. rewrite Hu, Hr, Hf. simpl.
  split_and!; [done..|].
  apply rooms_get_Some in Hr as [Hrc Hl].
  eexists. split_and!.
  - apply rooms_get_Some. simpl. split; [done|].
    by rewrite (heap_insert_lookup _ _ _ _ _ Hl), decide_True.
  - done.
  - simpl. unfold find_participant in *.
    apply list_find_Some in Hf as (Hi & Hid & Hbefore).
    apply list_find_Some. split_and!.
    + apply list_lookup_insert_eq. by eapply lookup_lt_Some.
    + done.
    + intros j y Hj Hlt. rewrite list_lookup_insert_ne in Hj by lia.
      by eapply Hbefore.
Qed.

Lemma next_step_verbatim_witness :
  let res := step two_cooks (FromSocket "s2" noon (NextStep (-7))) in
  effects res = [EmitRoom "ABC1" (step_updated "s2" "Bob" (-7))] ∧
  ∃ room',
    rooms_get (state res) "ABC1" = Some (0, room') ∧
    find_participant "s2" (Room.participants room')
      = Some (1, Participant.mk "s2" "Bob" (-7) false).
Proof.
  destruct (next_step_verbatim two_cooks "s2" noon (-7)
              (User.mk "ABC1" "Bob") 0
              (Room.mk [Participant.mk "s1" "Alice" 0 false;
                        Participant.mk "s2" "Bob" 0 false] soup None [] 0)
              1 (Participant.mk "s2" "Bob" 0 false))
    as (_ & He & _ & room' & Hr & _ & Hf); [reflexivity..|].
  split; [exact He|]. exists room'. split; [exact Hr|exact Hf].
Defined.

(** ** Joining *)

(** The three ways a join-room event ends. *)
Lemma join_room_absent socket rc username recipe st :
  rooms st !! rc = None →
  let user := Participant.mk socket username 0 false in
  let room' := Room.push_participant user (Room.create recipe) in
  on_join_room socket rc username recipe st =
  ret (mkState (heap st ++ [room']) (<[rc := length (heap st)]> (rooms st))
         (<[socket := User.mk rc username]> (users st)) (pending st))
    [SocketJoin socket rc; EmitRoom rc (user_joined [user] recipe [])].
Proof.
  intros Hrc user room'. unfold on_join_room, create_room_if_absent.
  rewrite Hrc.
  assert (rooms_get
            (set_rooms (<[rc:=length (heap st)]> (rooms st))
               (set_heap (heap st ++ [Room.create recipe])%list st)) rc
          = Some (length (heap st), Room.create recipe)) as ->.
  { apply rooms_get_Some. simpl. split; [by rewrite lookup_insert_eq|].
    apply heap_snoc_lookup. }
  simpl. unfold set_users, set_heap. simpl.
  by rewrite heap_snoc_insert.
Qed.

Lemma join_room_present socket rc username recipe st l room :
  rooms_get st rc = Some (l, room) →
  length (Room.participants room) < 8 →
  let user := Participant.mk socket username 0 false in
  let room' := Room.push_participant user room in
  on_join_room socket rc username recipe st =
  ret (mkState (<[l := room']> (heap st)) (rooms st)
         (<[socket := User.mk rc username]> (users st)) (pending st))
    [SocketJoin socket rc;
     EmitRoom rc (user_joined (Room.participants room ++ [user])
                    (Room.recipe room) (Room.messages room))].
Proof.
  intros Hr Hlt user room'. unfold on_join_room, create_room_if_absent.
  pose proof Hr as [Hrc _]%rooms_get_Some. rewrite Hrc, Hr.
  by rewrite bool_decide_eq_true_2.
Qed.

Lemma join_room_full socket rc username recipe st l room :
  rooms_get st rc = Some (l, room) →
  (8 ≤ length (Room.participants room))%nat →
  on_join_room socket rc username recipe st =
  ret st [EmitSocket socket (room_full room_full_text)].
Proof.
  intros Hr Hge. unfold on_join_room, create_room_if_absent.
  pose proof Hr as [Hrc _]%rooms_get_Some. rewrite Hrc, Hr.
  rewrite bool_decide_eq_false_2; [done|lia].
Qed.

(** Reading a room back after its object was replaced in the heap. *)
Lemma rooms_get_insert st rc l room room' u p :
  rooms_get st rc = Some (l, room) →
  rooms_get (mkState (<[l := room']> (heap st)) (rooms st) u p) rc
  = Some (l, room').
Proof.
  intros [Hrc Hl]%rooms_get_Some. apply rooms_get_Some. simpl.
  split; [done|]. by rewrite (heap_insert_lookup _ _ _ _ _ Hl), decide_True.
Qed.

(** A run of join-room events for a room that exists fills it up to 8. *)
Lemma run_joins rc ins : ∀ st l room,
  rooms_get st rc = Some (l, room) →
  (length (Room.participants room) ≤ 8)%nat →
  forallb (is_join_to rc) ins = true →
  completion (run st ins) = Returned ∧
  ∃ room', rooms_get (state (run st ins)) rc = Some (l, room') ∧
    length (Room.participants room') =
      (length (Room.participants room) + length ins) `min` 8.
Proof.
  induction ins as [|i ins IH]; intros st l room Hr Hle Hall.
  - simpl. split; [done|]. exists room. split; [done|lia].
  - simpl in Hall. apply andb_prop in Hall as [Hi Hall].
    destruct i as [socket clock [rc' username recipe| | | | | |]|]; try done.
    simpl in Hi. apply bool_decide_eq_true_1 in Hi as ->.
    rewrite run_cons. simpl step.
    destruct (decide (length (Room.participants room) < 8)) as [Hlt|Hge].
    + rewrite (join_room_present _ _ _ _ _ _ _ Hr Hlt). simpl.
      set (room1 := Room.push_participant _ room).
      assert (length (Room.participants room1)
              = S (length (Room.participants room))) as Hlen1.
      { unfold room1. simpl. rewrite length_app. simpl. lia. }
      set (st1 := mkState _ _ _ _).
      assert (rooms_get st1 rc = Some (l, room1)) as Hr1
        by by apply (rooms_get_insert _ _ _ room).
      destruct (IH st1 l room1 Hr1 ltac:(lia) Hall)
        as (Hc & room' & Hr' & Hlen).
      split; [done|]. exists room'. split; [done|]. lia.
    + rewrite (join_room_full _ _ _ _ _ _ _ Hr) by lia. simpl.
      destruct (IH _ _ _ Hr Hle Hall) as (Hc & room' & Hr' & Hlen).
      split; [done|]. exists room'. split; [done|]. lia.
Qed.

(** From a state without the room, [n] joins leave [min n 8] participants. *)
Lemma run_joins_fresh rc ins st :
  rooms st !! rc = None →
  forallb (is_join_to rc) ins = true →
  ins ≠ [] →
  completion (run st ins) = Returned ∧
  ∃ l room, rooms_get (state (run st ins)) rc = Some (l, room) ∧
    length (Room.participants room) = length ins `min` 8.
Proof.
  intros Hrc Hall Hne. destruct ins as [|i ins]; [done|].
  simpl in Hall. apply andb_prop in Hall as [Hi Hall].
  destruct i as [socket clock [rc' username recipe| | | | | |]|]; try done.
  simpl in Hi. apply bool_decide_eq_true_1 in Hi as ->.
  rewrite run_cons. simpl step. rewrite (join_room_absent _ _ _ _ _ Hrc).
  simpl.
  set (room1 := Room.push_participant _ (Room.create recipe)).
  set (st1 := mkState _ _ _ _).
  assert (rooms_get st1 rc = Some (length (heap st), room1)) as Hr1.
  { apply rooms_get_Some. simpl. split; [by rewrite lookup_insert_eq|].
    apply heap_snoc_lookup. }
  destruct (run_joins rc ins st1 _ room1 Hr1 ltac:(simpl; lia) Hall)
    as (Hc & room' & Hr' & Hlen).
  split; [done|]. eexists _, room'. split; [done|]. by rewrite Hlen.
Qed.

(** C1 (amended). Start from any state in which room code [rc] is not a
    key of [rooms] and run any sequence [ins] of join-room events for [rc].
    If fewer than 8 joins came before, the next join succeeds: it returns,
    registers the connection under [rc], emits [socket.join] and one
    [user-joined] broadcast, and the room then has one participant more
    than the number of earlier joins.  If 8 or more came before, the next
    join is rejected: the only effect is [room-full] emitted to the
    requesting socket, and the state is unchanged, so the room keeps 8
    participants and the registry is as it was (the rejected connection is
    registered afterwards only if it already was). *)
Theorem join_capacity st rc ins socket clock username recipe :
  rooms st !! rc = None →
  forallb (is_join_to rc) ins = true →
  let st_n := state (run st ins) in
  let res := step st_n (FromSocket socket clock (JoinRoom rc username recipe)) in
  (length ins < 8 →
     completion res = Returned ∧
     users (state res) !! socket = Some (User.mk rc username) ∧
     ∃ l room,
       rooms_get (state res) rc = Some (l, room) ∧
       length (Room.participants room) = S (length ins) ∧
       effects res =
         [SocketJoin socket rc;
          EmitRoom rc (user_joined (Room.participants room) (Room.recipe room)
                         (Room.messages room))]) ∧
  ((8 ≤ length ins)%nat →
     res = ret st_n [EmitSocket socket (room_full room_full_text)] ∧
     ∃ l room,
       rooms_get st_n rc = Some (l, room) ∧
       length (Room.participants room) = 8).
Proof.
  intros Hrc Hall st_n res. subst res. simpl step.
  destruct (decide (ins = [])) as [->|Hne].
  - subst st_n. simpl. split; [|intros; lia]. intros _.
    rewrite (join_room_absent _ _ _ _ _ Hrc). simpl.
    split_and!; [done|by rewrite lookup_insert_eq|].
    exists (length (heap st)),
      (Room.push_participant (Participant.mk socket username 0 false)
         (Room.create recipe)).
    split_and!; [|done..].
    apply rooms_get_Some. simpl. split; [by rewrite lookup_insert_eq|].
    apply heap_snoc_lookup.
  - destruct (run_joins_fresh rc ins st Hrc Hall Hne)
      as (_ & l & room & Hr & Hlen).
    fold st_n in Hr. split.
    + intros Hlt.
      rewrite (join_room_present _ _ _ _ _ _ _ Hr) by lia. simpl.
      split_and!; [done|by rewrite lookup_insert_eq|].
      exists l,
        (Room.push_participant (Participant.mk socket username 0 false) room).
      split_and!; [by eapply rooms_get_insert| |done].
      simpl. rewrite length_app. simpl. lia.
    + intros Hge.
      rewrite (join_room_full _ _ _ _ _ _ _ Hr) by lia.
      split; [done|]. exists l, room. split; [done|lia].
Qed.

Lemma join_capacity_witness :
  rooms init !! "R" = None ∧
  forallb (is_join_to "R") eight_joins_by_one = true ∧
  length eight_joins_by_one = 8 ∧
  step (state (run init eight_joins_by_one)) (join_ev "s9" "R" "Ivy" stew)
  = ret (state (run init eight_joins_by_one))
      [EmitSocket "s9" (room_full room_full_text)].
Proof.
  split; [reflexivity|]. split; [reflexivity|]. split; [reflexivity|].
  apply (join_capacity init "R" eight_joins_by_one "s9" noon "Ivy" stew);
    [reflexivity|reflexivity|simpl; lia].
Defined.

(** C1 as stated fails where it says that the rejected connection is not
    registered: when one connection sends all nine joins for a fresh room,
    the ninth is rejected with [room-full] and the room keeps 8 entries,
    but the connection is still registered from its earlier joins. *)
Lemma rejected_connection_still_registered :
  let st8 := state (run init eight_joins_by_one) in
  let res := step st8 (join_ev "s1" "R" "Alice" soup) in
  rooms init !! "R" = None ∧
  effects res = [EmitSocket "s1" (room_full room_full_text)] ∧
  (length ∘ Room.participants ∘ snd <$> rooms_get (state res) "R") = Some 8 ∧
  users (state res) !! "s1" = Some (User.mk "R" "Alice").
Proof. vm_compute. done. Qed.

(** ** Rooms exist exactly while they are occupied *)

Lemma disconnect_registered socket st user l room :
  users st !! socket = Some user →
  rooms_get st (User.roomCode user) = Some (l, room) →
  let ps := filter (λ p, Participant.id p ≠ socket) (Room.participants room) in
  on_disconnect socket st =
  ret (mkState (<[l := Room.set_participants ps room]> (heap st))
         (if bool_decide (length ps = 0)
          then delete (User.roomCode user) (rooms st) else rooms st)
         (delete socket (users st)) (pending st))
    [EmitRoom (User.roomCode user) (user_left (User.username user) ps)].
Proof.
  intros Hu Hr ps. unfold on_disconnect. rewrite Hu, Hr. fold ps.
  by case_bool_decide.
Qed.

Lemma filter_all_out socket (ps : list Participant.t) :
  Forall (λ p, Participant.id p = socket) ps →
  filter (λ p, Participant.id p ≠ socket) ps = [].
Proof.
  induction 1 as [|p ps Hp _ IH]; [done|].
  rewrite filter_cons, decide_False by (intros Hne; by apply Hne). done.
Qed.

(** C2 (amended). In every state the server reaches, a room object is
    referred to by [rooms] if and only if its participant list is non-empty,
    and every room code in [rooms] refers to such an object.  When a
    connection is registered in a room and every entry of that room belongs
    to it, its disconnect removes the room code from [rooms] (and the
    connection from [users]).  A join for a
    room code that is not in [rooms] allocates a room object that did not
    exist before, whose message log is empty, and broadcasts [user-joined]
    with an empty history. *)
Theorem room_exists_iff_occupied ins :
  let st := state (run init ins) in
  (∀ l room, heap st !! l = Some room →
     (∃ rc, rooms st !! rc = Some l) ↔ Room.participants room ≠ []) ∧
  (∀ rc, is_Some (rooms st !! rc) ↔
     ∃ l room, rooms_get st rc = Some (l, room) ∧ Room.participants room ≠ []) ∧
  (∀ socket clock user l room,
     users st !! socket = Some user →
     rooms_get st (User.roomCode user) = Some (l, room) →
     Forall (λ p, Participant.id p = socket) (Room.participants room) →
     let res := step st (FromSocket socket clock Disconnect) in
     completion res = Returned ∧
     rooms (state res) !! User.roomCode user = None ∧
     users (state res) !! socket = None) ∧
  (∀ socket clock rc username recipe,
     rooms st !! rc = None →
     let res := step st (FromSocket socket clock (JoinRoom rc username recipe)) in
     let user := Participant.mk socket username 0 false in
     effects res =
       [SocketJoin socket rc; EmitRoom rc (user_joined [user] recipe [])] ∧
     ∃ l room,
       rooms_get (state res) rc = Some (l, room) ∧
       heap st !! l = None ∧
       Room.messages room = [] ∧
       Room.participants room = [user]).
Proof.
  intros st. pose proof (wf_run ins) as [W1 W2 W3 W4]. fold st in W1, W2, W3, W4.
  split_and!.
  - intros l room Hl. split.
    + intros (rc & Hrc). destruct (W1 _ _ Hrc) as (room' & Hl' & Hne).
      congruence.
    + by apply W3.
  - intros rc. split.
    + intros [l Hrc]. destruct (W1 _ _ Hrc) as (room & Hl & Hne).
      exists l, room. split; [by apply rooms_get_Some|done].
    + intros (l & room & [Hrc _]%rooms_get_Some & _). by exists l.
  - intros socket clock user l room Hu Hr Hall. simpl.
    rewrite (disconnect_registered _ _ _ _ _ Hu Hr).
    rewrite (filter_all_out _ _ Hall). simpl.
    split_and!; [done|apply lookup_delete_eq..].
  - intros socket clock rc username recipe Hrc. simpl.
    rewrite (join_room_absent _ _ _ _ _ Hrc). simpl. split; [done|].
    eexists _, _. split_and!.
    + apply rooms_get_Some. simpl. split; [by rewrite lookup_insert_eq|].
      apply heap_snoc_lookup.
    + by apply lookup_ge_None_2.
    + done.
    + done.
Qed.

Lemma room_exists_iff_occupied_witness :
  let st := state (run init alice_alone) in
  let st1 := state (step st (FromSocket "s1" noon Disconnect)) in
  let res := step st1 (join_ev "s2" "ABC1" "Bob" stew) in
  (Room.messages <$> heap st !! 0) =
    Some [Message.mk 1700000000000 "Alice" "hi" "12:00:00 PM" Message.user] ∧
  rooms st1 !! "ABC1" = None ∧
  ∃ l room,
    rooms_get (state res) "ABC1" = Some (l, room) ∧
    heap st1 !! l = None ∧
    Room.messages room = [] ∧
    Room.participants room = [Participant.mk "s2" "Bob" 0 false].
Proof.
  split; [reflexivity|].
  destruct (room_exists_iff_occupied alice_alone) as (_ & _ & Hleave & _).
  destruct (room_exists_iff_occupied
              (alice_alone ++ [FromSocket "s1" noon Disconnect]))
    as (_ & _ & _ & Hjoin).
  split.
  - refine (proj1 (proj2 (Hleave "s1" noon (User.mk "ABC1" "Alice") 0
      (Room.mk [Participant.mk "s1" "Alice" 0 false] soup None
         [Message.mk 1700000000000 "Alice" "hi" "12:00:00 PM" Message.user] 0)
      _ _ _))); [reflexivity|reflexivity|].
    repeat constructor.
  - exact (proj2 (Hjoin "s2" noon "ABC1" "Bob" stew eq_refl)).
Defined.

(** C2 as stated fails where it says that the disconnect of the last
    participant deletes the room: the last entry of a room may belong to a
    connection that has since joined another room, and its disconnect
    removes entries from that other room only.  Alice and Bob join [ABC1],
    Alice says "hi" and joins [XYZ9], Bob disconnects: Alice's old entry is
    the only one left in [ABC1].  Alice disconnects: nobody is registered any
    more, yet [ABC1] is still in [rooms] with that entry and its log, and the
    next joiner is sent the old message. *)
Lemma stale_entry_keeps_room_and_log :
  let st :=
    state (run init
      [join_ev "s1" "ABC1" "Alice" soup; join_ev "s2" "ABC1" "Bob" stew;
       FromSocket "s1" noon (ChatMessage "hi");
       join_ev "s1" "XYZ9" "Alice" soup;
       FromSocket "s2" noon Disconnect]) in
  let res := step st (FromSocket "s1" noon Disconnect) in
  let hi := Message.mk 1700000000000 "Alice" "hi" "12:00:00 PM" Message.user in
  let old := Participant.mk "s1" "Alice" 0 false in
  participants_of st "ABC1" = [old] ∧
  completion res = Returned ∧
  users (state res) !! "s1" = None ∧
  users (state res) !! "s2" = None ∧
  participants_of (state res) "ABC1" = [old] ∧
  messages_of (state res) "ABC1" = [hi] ∧
  effects (step (state res) (join_ev "s3" "ABC1" "Cy" None)) =
    [SocketJoin "s3" "ABC1";
     EmitRoom "ABC1"
       (user_joined [old; Participant.mk "s3" "Cy" 0 false] soup [hi])].
Proof. vm_compute. done. Qed.

(** ** Every turn is a heap step *)

Lemma step_heap_step st i : heap_step (heap st) (heap (state (step st i))).
Proof.
  destruct i as [socket clock ev|call clock res]; simpl.
  - destruct ev as [rc username recipe|text|S|d|q|ph f|]; simpl.
    + destruct (rooms st !! rc) as [l|] eqn:Hrc.
      * destruct (rooms_get st rc) as [[l' room]|] eqn:Hr.
        -- destruct (decide (length (Room.participants room) < 8)).
           ++ rewrite (join_room_present _ _ _ _ _ _ _ Hr) by done. simpl.
              apply rooms_get_Some in Hr as [_ Hl].
              eapply heap_update; [done|constructor].
           ++ rewrite (join_room_full _ _ _ _ _ _ _ Hr) by lia. constructor.
        -- unfold on_join_room, create_room_if_absent. rewrite Hrc, Hr.
           constructor.
      * rewrite (join_room_absent _ _ _ _ _ Hrc). simpl. constructor.
    + unfold on_chat_message.
      destruct (users st !! socket) as [user|]; [|constructor].
      destruct (rooms_get st _) as [[l room]|] eqn:Hr; [|constructor].
      apply rooms_get_Some in Hr as [_ Hl]. simpl.
      eapply heap_update; [done|constructor].
    + unfold on_next_step.
      destruct (users st !! socket) as [user|]; [|constructor].
      destruct (rooms_get st _) as [[l room]|] eqn:Hr; [|constructor].
      apply rooms_get_Some in Hr as [_ Hl].
      destruct (find_participant _ _) as [[i p]|] eqn:Hf; [|constructor].
      apply find_participant_Some in Hf as [Hi _]. simpl.
      eapply heap_update; [done|by constructor].
    + unfold on_start_timer. destruct (users st !! socket); constructor.
    + unfold on_ai_question.
      destruct (users st !! socket) as [user|]; [|constructor].
      destruct (rooms_get st _) as [[l room]|]; constructor.
    + unfold on_share_photo. destruct (users st !! socket); constructor.
    + destruct (users st !! socket) as [user|] eqn:Hu.
      * destruct (rooms_get st (User.roomCode user)) as [[l room]|] eqn:Hr.
        -- rewrite (disconnect_registered _ _ _ _ _ Hu Hr). simpl.
           apply rooms_get_Some in Hr as [_ Hl].
           eapply heap_update; [done|constructor].
        -- unfold on_disconnect. rewrite Hu, Hr. constructor.
      * unfold on_disconnect. rewrite Hu. constructor.
  - destruct (pending st !! call) as [[pc|]|]; [|constructor..].
    unfold on_ai_settled. destruct res as [text|].
    + simpl. destruct (heap st !! Pending.room pc) as [room|] eqn:Hl.
      * rewrite (heap_alter_insert _ _ _ _ Hl).
        eapply heap_update; [done|constructor].
      * rewrite (heap_alter_dangling _ _ _ Hl). constructor.
    + destruct (rooms_get _ _) as [[l room]|] eqn:Hr; [|constructor].
      apply rooms_get_Some in Hr as [_ Hl]. simpl in *.
      eapply heap_update; [done|constructor].
Qed.

(** Room objects are never removed from the heap, and keep their recipe. *)
Lemma room_step_recipe room room' :
  room_step room room' → Room.recipe room' = Room.recipe room.
Proof. by destruct 1. Qed.

Lemma heap_step_recipe h h' l room :
  heap_step h h' → h !! l = Some room →
  ∃ room', h' !! l = Some room' ∧ Room.recipe room' = Room.recipe room.
Proof.
  intros Hs Hl. destruct Hs as [|l0 room0 room0' Hl0 Hrs|socket username recipe].
  - by exists room.
  - rewrite (heap_insert_lookup _ _ _ _ _ Hl0).
    destruct (decide (l0 = l)) as [->|]; [|by exists room].
    exists room0'. split; [done|]. rewrite (room_step_recipe _ _ Hrs). congruence.
  - exists room. split; [|done]. rewrite lookup_app_l; [done|].
    by eapply lookup_lt_Some.
Qed.

Lemma run_recipe ins : ∀ st l room,
  heap st !! l = Some room →
  ∃ room', heap (state (run st ins)) !! l = Some room' ∧
           Room.recipe room' = Room.recipe room.
Proof.
  induction ins as [|i ins IH]; intros st l room Hl; [by exists room|].
  rewrite run_cons.
  destruct (heap_step_recipe _ _ _ _ (step_heap_step st i) Hl)
    as (room1 & Hl1 & Hrec1).
  destruct (completion (step st i)); [|by exists room1].
  simpl. destruct (IH _ _ _ Hl1) as (room' & Hl' & Hrec').
  exists room'. split; [done|congruence].
Qed.

(** The message log of a room object only grows, at its end. *)
Lemma room_step_log room room' :
  room_step room room' → Room.messages room `prefix_of` Room.messages room'.
Proof. destruct 1; simpl; try done. by apply prefix_app_r. Qed.

Lemma heap_step_log h h' l room :
  heap_step h h' → h !! l = Some room →
  ∃ room', h' !! l = Some room' ∧
           Room.messages room `prefix_of` Room.messages room'.
Proof.
  intros Hs Hl. destruct Hs as [|l0 room0 room0' Hl0 Hrs|socket username recipe].
  - by exists room.
  - rewrite (heap_insert_lookup _ _ _ _ _ Hl0).
    destruct (decide (l0 = l)) as [->|]; [|by exists room].
    exists room0'. split; [done|].
    assert (room0 = room) as <- by congruence. by apply room_step_log.
  - exists room. split; [|done]. rewrite lookup_app_l; [done|].
    by eapply lookup_lt_Some.
Qed.

Lemma run_log ins : ∀ st l room,
  heap st !! l = Some room →
  ∃ room', heap (state (run st ins)) !! l = Some room' ∧
           Room.messages room `prefix_of` Room.messages room'.
Proof.
  induction ins as [|i ins IH]; intros st l room Hl; [by exists room|].
  rewrite run_cons.
  destruct (heap_step_log _ _ _ _ (step_heap_step st i) Hl)
    as (room1 & Hl1 & Hpre1).
  destruct (completion (step st i)); [|by exists room1].
  simpl. destruct (IH _ _ _ Hl1) as (room' & Hl' & Hpre').
  exists room'. split; [done|]. by etrans.
Qed.

(** ** The recipe of a room *)

(** C6. The join that creates a room stores the recipe it carries.
    Whatever inputs follow, that room object keeps this recipe; and as long
    as the room code still refers to it, a later join for the same code with
    any other recipe leaves the recipe as it is and, when it succeeds,
    broadcasts the original recipe in [user-joined]. *)
Theorem recipe_fixed_by_first_joiner st socket clock rc username recipe :
  rooms st !! rc = None →
  let st1 :=
    state (step st (FromSocket socket clock (JoinRoom rc username recipe))) in
  ∃ l room,
    rooms_get st1 rc = Some (l, room) ∧
    Room.recipe room = recipe ∧
    ∀ ins,
      let st2 := state (run st1 ins) in
      (∃ room2, heap st2 !! l = Some room2 ∧ Room.recipe room2 = recipe) ∧
      ∀ socket' clock' username' recipe',
        rooms st2 !! rc = Some l →
        let res :=
          step st2 (FromSocket socket' clock' (JoinRoom rc username' recipe')) in
        (∃ room3, rooms_get (state res) rc = Some (l, room3) ∧
                  Room.recipe room3 = recipe) ∧
        (effects res = [EmitSocket socket' (room_full room_full_text)] ∨
         ∃ ps ms, effects res =
           [SocketJoin socket' rc; EmitRoom rc (user_joined ps recipe ms)]).
Proof.
  intros Hrc st1. subst st1. simpl step.
  rewrite (join_room_absent _ _ _ _ _ Hrc). simpl.
  set (room := Room.push_participant _ _). set (st1 := mkState _ _ _ _).
  assert (rooms_get st1 rc = Some (length (heap st), room)) as Hr1.
  { apply rooms_get_Some. simpl. split; [by rewrite lookup_insert_eq|].
    apply heap_snoc_lookup. }
  exists (length (heap st)), room. split_and!; [done..|].
  intros ins. set (st2 := state (run st1 ins)).
  pose proof Hr1 as [_ Hl1]%rooms_get_Some.
  destruct (run_recipe ins _ _ _ Hl1) as (room2 & Hl2 & Hrec2).
  fold st2 in Hl2. simpl in Hrec2. split; [by exists room2|].
  intros socket' clock' username' recipe' Hrc2. simpl.
  assert (rooms_get st2 rc = Some (length (heap st), room2)) as Hr2
    by by apply rooms_get_Some.
  destruct (decide (length (Room.participants room2) < 8)).
  - rewrite (join_room_present _ _ _ _ _ _ _ Hr2) by done. simpl. split.
    + eexists. split; [by eapply rooms_get_insert|done].
    + right. rewrite Hrec2. by eexists _, _.
  - rewrite (join_room_full _ _ _ _ _ _ _ Hr2) by lia. simpl. split.
    + by exists room2.
    + by left.
Qed.

Lemma recipe_fixed_by_first_joiner_witness :
  let st1 := state (step init (join_ev "s1" "ABC1" "Alice" soup)) in
  let res := step st1 (join_ev "s2" "ABC1" "Bob" stew) in
  rooms init !! "ABC1" = None ∧
  ∃ room3, rooms_get (state res) "ABC1" = Some (0, room3) ∧
           Room.recipe room3 = soup.
Proof.
  split; [reflexivity|].
  destruct (recipe_fixed_by_first_joiner init "s1" noon "ABC1" "Alice" soup)
    as (l & room & Hr & _ & Hlater); [reflexivity|].
  injection Hr as <- _.
  destruct (Hlater []) as [_ Hjoin].
  exact (proj1 (Hjoin "s2" noon "Bob" stew eq_refl)).
Defined.

(** ** Chat order and history replay *)

Lemma chat_message_registered socket clock text st user l room :
  users st !! socket = Some user →
  rooms_get st (User.roomCode user) = Some (l, room) →
  let m := Message.mk (now clock) (User.username user) text (localeTime clock)
             Message.user in
  on_chat_message socket clock text st =
  ret (mkState (<[l := Room.push_message m room]> (heap st)) (rooms st)
         (users st) (pending st))
    [EmitRoom (User.roomCode user) (new_message m)].
Proof. intros Hu Hr m. unfold on_chat_message. by rewrite Hu, Hr. Qed.

Lemma run_chats rc l chats : ∀ st room,
  rooms_get st rc = Some (l, room) →
  Forall (sender_in (users st) rc) chats →
  let res := run st (chat_input <$> chats) in
  ∃ msgs room',
    Forall2 (sent_as (users st)) chats msgs ∧
    completion res = Returned ∧
    effects res = (λ m, EmitRoom rc (new_message m)) <$> msgs ∧
    rooms_get (state res) rc = Some (l, room') ∧
    Room.messages room' = (Room.messages room ++ msgs)%list ∧
    Room.participants room' = Room.participants room ∧
    Room.recipe room' = Room.recipe room.
Proof.
  induction chats as [|[[socket clock] text] chats IH]; intros st room Hr Hall.
  - exists [], room. simpl. rewrite app_nil_r. by split_and!.
  - apply Forall_cons in Hall as [(user & Hu & <-) Hall].
    rewrite fmap_cons. simpl chat_input. cbv zeta. rewrite run_cons. simpl step.
    rewrite (chat_message_registered _ _ _ _ _ _ _ Hu Hr). simpl.
    set (m := Message.mk _ _ _ _ _). set (st1 := mkState _ _ _ _).
    assert (rooms_get st1 (User.roomCode user)
            = Some (l, Room.push_message m room)) as Hr1
      by by apply (rooms_get_insert _ _ _ room).
    destruct (IH st1 _ Hr1 Hall) as (msgs & room' & HF & Hc & He & Hr' & Hm & Hp & Hrec).
    exists (m :: msgs), room'. split_and!; try done.
    + constructor; [by exists user|done].
    + simpl. by rewrite He.
    + rewrite Hm. simpl. by rewrite <- app_assoc.
Qed.

(** C8. Chat messages sent one after the other by connections
    registered in a room are broadcast to that room as [new-message] in the
    order sent, and appended to the room's log in that order.  Whatever
    inputs follow, as long as the room code still refers to the same room, a
    join for it finds a log that starts with everything that was in it
    before followed by the messages sent, in order, and (the room not being
    full) broadcasts that whole log as the history of [user-joined]. *)
Theorem chat_in_order_and_replayed st rc l room chats :
  rooms_get st rc = Some (l, room) →
  Forall (sender_in (users st) rc) chats →
  let res := run st (chat_input <$> chats) in
  ∃ msgs,
    Forall2 (sent_as (users st)) chats msgs ∧
    completion res = Returned ∧
    effects res = (λ m, EmitRoom rc (new_message m)) <$> msgs ∧
    (∃ room', rooms_get (state res) rc = Some (l, room') ∧
       Room.messages room' = (Room.messages room ++ msgs)%list) ∧
    ∀ ins socket clock username recipe,
      let st' := state (run (state res) ins) in
      rooms st' !! rc = Some l →
      ∃ room',
        rooms_get st' rc = Some (l, room') ∧
        (Room.messages room ++ msgs)%list `prefix_of` Room.messages room' ∧
        (length (Room.participants room') < 8 →
         effects (step st'
                    (FromSocket socket clock (JoinRoom rc username recipe))) =
           [SocketJoin socket rc;
            EmitRoom rc
              (user_joined
                 (Room.participants room'
                    ++ [Participant.mk socket username 0 false])
                 (Room.recipe room')
                 (Room.messages room'))]).
Proof.
  intros Hr Hall res.
  destruct (run_chats rc l chats st room Hr Hall)
    as (msgs & room1 & HF & Hc & He & Hr1 & Hm & Hp & Hrec).
  exists msgs. split_and!; [done..|by exists room1|].
  intros ins socket clock username recipe st' Hrc'.
  pose proof Hr1 as [_ Hl1]%rooms_get_Some.
  destruct (run_log ins _ _ _ Hl1) as (room' & Hl' & Hpre).
  fold res in Hl'. fold st' in Hl'.
  assert (rooms_get st' rc = Some (l, room')) as Hr' by by apply rooms_get_Some.
  exists room'. split_and!; [done|by rewrite <- Hm|].
  intros Hlt. simpl step.
  by rewrite (join_room_present _ _ _ _ _ _ _ Hr').
Qed.

Lemma chat_in_order_and_replayed_witness :
  let res := run two_cooks
    [FromSocket "s1" noon (ChatMessage "hi");
     FromSocket "s2" noon (ChatMessage "hello");
     FromSocket "s1" noon (ChatMessage "salt?")] in
  let st' := state (run (state res) [FromSocket "s2" noon (NextStep 2)]) in
  ∃ msgs,
    Message.message <$> msgs = ["hi"; "hello"; "salt?"] ∧
    Message.username <$> msgs = ["Alice"; "Bob"; "Alice"] ∧
    effects res = (λ m, EmitRoom "ABC1" (new_message m)) <$> msgs ∧
    ∃ room',
      msgs `prefix_of` Room.messages room' ∧
      effects (step st' (join_ev "s3" "ABC1" "Cy" None)) =
        [SocketJoin "s3" "ABC1";
         EmitRoom "ABC1"
           (user_joined
              (Room.participants room' ++ [Participant.mk "s3" "Cy" 0 false])
              (Room.recipe room') (Room.messages room'))].
Proof.
  destruct (chat_in_order_and_replayed two_cooks "ABC1" 0
              (Room.mk [Participant.mk "s1" "Alice" 0 false;
                        Participant.mk "s2" "Bob" 0 false] soup None [] 0)
              [("s1", noon, "hi"); ("s2", noon, "hello"); ("s1", noon, "salt?")])
    as (msgs & HF & _ & He & _ & Hjoin).
  - reflexivity.
  - repeat constructor; eexists; (split; [reflexivity|reflexivity]).
  - exists msgs.
    assert (msgs =
      [Message.mk 1700000000000 "Alice" "hi" "12:00:00 PM" Message.user;
       Message.mk 1700000000000 "Bob" "hello" "12:00:00 PM" Message.user;
       Message.mk 1700000000000 "Alice" "salt?" "12:00:00 PM" Message.user])
      as Hmsgs.
    { repeat match goal with
             | H : Forall2 _ (_ :: _) _ |- _ =>
                 apply Forall2_cons_inv_l in H as (? & ? & (? & [= <-] & ->) & H & ->)
             | H : Forall2 _ [] _ |- _ => apply Forall2_nil_inv_l in H as ->
             end.
      reflexivity. }
    split; [by rewrite Hmsgs|]. split; [by rewrite Hmsgs|].
    split; [exact He|].
    destruct (Hjoin [FromSocket "s2" noon (NextStep 2)] "s3" noon "Cy" None)
      as (room' & Hr' & Hpre & Heff); [vm_compute; reflexivity|].
    exists room'. split; [exact Hpre|]. apply Heff.
    vm_compute in Hr'. injection Hr' as <-. vm_compute. lia.
Defined.

(** ** Joining again while registered *)

(** Only a connection's own join and disconnect change its registration. *)
Lemma users_step_other st i socket :
  not_from socket i = true →
  users (state (step st i)) !! socket = users st !! socket.
Proof.
  destruct i as [s clock ev|call clock res]; simpl.
  - intros Hs%bool_decide_eq_true_1.
    destruct ev as [rc username recipe|text|S|d|q|ph f|]; simpl.
    + unfold on_join_room.
      destruct (rooms_get _ rc) as [[l room]|];
        [|by unfold create_room_if_absent; destruct (rooms st !! rc)].
      case_bool_decide; simpl.
      * rewrite lookup_insert_ne by done.
        unfold create_room_if_absent; by destruct (rooms st !! rc).
      * unfold create_room_if_absent; by destruct (rooms st !! rc).
    + unfold on_chat_message. destruct (users st !! s); [|done].
      by destruct (rooms_get st _) as [[l room]|].
    + unfold on_next_step. destruct (users st !! s); [|done].
      destruct (rooms_get st _) as [[l room]|]; [|done].
      by destruct (find_participant _ _) as [[i p]|].
    + unfold on_start_timer. by destruct (users st !! s).
    + unfold on_ai_question. destruct (users st !! s); [|done].
      by destruct (rooms_get st _) as [[l room]|].
    + unfold on_share_photo. by destruct (users st !! s).
    + unfold on_disconnect. destruct (users st !! s); [|done]. simpl.
      rewrite lookup_delete_ne by done.
      destruct (rooms_get st _) as [[l room]|]; [|done].
      simpl. by case_bool_decide.
  - intros _. destruct (pending st !! call) as [[pc|]|]; [|done..].
    unfold on_ai_settled. destruct res; [done|].
    by destruct (rooms_get _ _) as [[l room]|].
Qed.

Lemma keeps_entry_update st socket rc l l0 room0 room0' :
  heap st !! l0 = Some room0 →
  (socket ∈ ids room0 → socket ∈ ids room0') →
  keeps_entry st socket rc l →
  keeps_entry (set_heap (<[l0 := room0']> (heap st)) st) socket rc l.
Proof.
  intros Hl0 Hsub (Hrc & room & Hl & Hin). split; [done|]. simpl.
  rewrite (heap_insert_lookup _ _ _ _ _ Hl0).
  destruct (decide (l0 = l)) as [->|]; [|by exists room].
  exists room0'. split; [done|]. apply Hsub. congruence.
Qed.

(** The entry of [socket] in room [rc] survives every turn except a
    disconnect of [socket] itself while it is registered in [rc]. *)
Lemma keeps_entry_step st i socket rc l :
  wf st →
  (∀ clock user, i = FromSocket socket clock Disconnect →
     users st !! socket = Some user → User.roomCode user ≠ rc) →
  keeps_entry st socket rc l →
  keeps_entry (state (step st i)) socket rc l.
Proof.
  intros W Hi K. pose proof K as (Hrc & room & Hl & Hin).
  destruct i as [s clock ev|call clock res]; simpl.
  - destruct ev as [rc' username recipe|text|S|d|q|ph f|]; simpl.
    + destruct (rooms st !! rc') as [l'|] eqn:Hrc'.
      * destruct (rooms_get st rc') as [[l0 room0]|] eqn:Hr.
        -- destruct (decide (length (Room.participants room0) < 8)).
           ++ rewrite (join_room_present _ _ _ _ _ _ _ Hr) by done. simpl.
              apply rooms_get_Some in Hr as [_ Hl0].
              apply (keeps_entry_update st _ _ _ _ room0
                       (Room.push_participant _ room0) Hl0); [|done].
              intros H. rewrite ids_push_participant. apply elem_of_app. by left.
           ++ by rewrite (join_room_full _ _ _ _ _ _ _ Hr) by lia.
        -- unfold on_join_room, create_room_if_absent. by rewrite Hrc', Hr.
      * rewrite (join_room_absent _ _ _ _ _ Hrc'). simpl. split; simpl.
        -- rewrite lookup_insert_ne; [done|]. congruence.
        -- exists room. split; [|done]. rewrite lookup_app_l; [done|].
           by eapply lookup_lt_Some.
    + unfold on_chat_message. destruct (users st !! s) as [user|]; [|done].
      destruct (rooms_get st _) as [[l0 room0]|] eqn:Hr; [|done].
      apply rooms_get_Some in Hr as [_ Hl0]. simpl.
      by apply (keeps_entry_update st _ _ _ _ room0).
    + unfold on_next_step. destruct (users st !! s) as [user|]; [|done].
      destruct (rooms_get st _) as [[l0 room0]|] eqn:Hr; [|done].
      apply rooms_get_Some in Hr as [_ Hl0].
      destruct (find_participant _ _) as [[j p]|] eqn:Hf; [|done].
      apply find_participant_Some in Hf as [Hj _]. simpl.
      apply (keeps_entry_update st _ _ _ _ room0); [done| |done].
      by rewrite ids_set_step.
    + unfold on_start_timer. by destruct (users st !! s).
    + unfold on_ai_question. destruct (users st !! s) as [user|]; [|done].
      by destruct (rooms_get st _) as [[l0 room0]|].
    + unfold on_share_photo. by destruct (users st !! s).
    + destruct (users st !! s) as [user|] eqn:Hu;
        [|by unfold on_disconnect; rewrite Hu].
      destruct (wf_users _ W _ _ Hu) as (l0 & room0 & Hrc0 & Hl0 & Hin0).
      assert (rooms_get st (User.roomCode user) = Some (l0, room0)) as Hr
        by by apply rooms_get_Some.
      rewrite (disconnect_registered _ _ _ _ _ Hu Hr). simpl.
      set (ps := filter _ _).
      destruct (decide (l0 = l)) as [->|Hne].
      * assert (User.roomCode user = rc) as Hsame
          by by eapply (wf_inj _ W).
        assert (s ≠ socket) as Hs.
        { intros ->. by eapply Hi. }
        assert (socket ∈ Participant.id <$> ps) as Hps.
        { apply ids_filter_other; [|done]. congruence. }
        assert (ps ≠ []) as Hnil.
        { intros E. rewrite E in Hps. by apply not_elem_of_nil in Hps. }
        rewrite bool_decide_eq_false_2 by (by destruct ps).
        split; simpl; [done|].
        rewrite (heap_insert_lookup _ _ _ _ _ Hl0), decide_True by done.
        by eexists.
      * split; simpl.
        -- case_bool_decide; [|done]. rewrite lookup_delete_ne; [done|].
           intros E. rewrite E in Hrc0. congruence.
        -- rewrite (heap_insert_lookup _ _ _ _ _ Hl0), decide_False by done.
           by exists room.
  - destruct (pending st !! call) as [[pc|]|]; [|done..].
    unfold on_ai_settled. destruct res as [text|].
    + simpl. destruct (heap st !! Pending.room pc) as [room0|] eqn:Hl0.
      * rewrite (heap_alter_insert _ _ _ _ Hl0).
        by apply (keeps_entry_update st _ _ _ _ room0).
      * by rewrite (heap_alter_dangling _ _ _ Hl0).
    + destruct (rooms_get _ _) as [[l0 room0]|] eqn:Hr; [|done].
      apply rooms_get_Some in Hr as [_ Hl0]. simpl in *.
      by apply (keeps_entry_update st _ _ _ _ room0).
Qed.

Lemma keeps_entry_participant st socket rc l :
  keeps_entry st socket rc l →
  ∃ p, p ∈ participants_of st rc ∧ Participant.id p = socket.
Proof.
  intros (Hrc & room & Hl & Hin). unfold participants_of.
  assert (rooms_get st rc = Some (l, room)) as -> by by apply rooms_get_Some.
  apply list_elem_of_fmap in Hin as (p & -> & Hp). by exists p.
Qed.

Lemma run_not_from socket u ins : ∀ st,
  forallb (not_from socket) ins = true →
  wf st → users st !! socket = Some u →
  wf (state (run st ins)) ∧ users (state (run st ins)) !! socket = Some u.
Proof.
  induction ins as [|i ins IH]; intros st Hall W Hu; [done|].
  simpl in Hall. apply andb_prop in Hall as [Hi Hall].
  pose proof (wf_step st i W) as W1.
  pose proof (users_step_other st i socket Hi) as Hu1. rewrite Hu in Hu1.
  rewrite run_cons. destruct (completion (step st i)); [|done].
  simpl. by apply IH.
Qed.

Lemma run_keeps_entry socket rc l ins : ∀ st,
  forallb (not_from socket) ins = true →
  wf st → keeps_entry st socket rc l →
  keeps_entry (state (run st ins)) socket rc l.
Proof.
  induction ins as [|i ins IH]; intros st Hall W K; [done|].
  simpl in Hall. apply andb_prop in Hall as [Hi Hall].
  pose proof (wf_step st i W) as W1.
  assert (keeps_entry (state (step st i)) socket rc l) as K1.
  { apply keeps_entry_step; [done| |done].
    intros clock user ->. simpl in Hi.
    by apply bool_decide_eq_true_1 in Hi. }
  rewrite run_cons. destruct (completion (step st i)); [|done].
  simpl. by apply IH.
Qed.

(** C10 (amended). A connection registered in room [A] sends a further
    join-room for room [B], which has fewer than 8 participants ([B] may be
    [A], and may not exist yet).  A fresh entry with step 0 is appended to
    [B], the registry entry of the connection now names [B], and every entry
    of [A] is kept, the connection's old one included.  After any inputs
    from other connections, the disconnect of this connection unregisters
    it and removes its entries from [B] only: the participant list of every
    other room code is as before, and when [B] differs from [A] an entry
    with the connection's id is still in [A]. *)
Theorem rejoin_leaves_stale_entry ins socket clock userA B username recipe :
  let st := state (run init ins) in
  let A := User.roomCode userA in
  users st !! socket = Some userA →
  length (participants_of st B) < 8 →
  let st1 :=
    state (step st (FromSocket socket clock (JoinRoom B username recipe))) in
  let entry := Participant.mk socket username 0 false in
  participants_of st1 B = (participants_of st B ++ [entry])%list ∧
  users st1 !! socket = Some (User.mk B username) ∧
  (∃ p, p ∈ participants_of st A ∧ Participant.id p = socket) ∧
  (∀ p, p ∈ participants_of st A → p ∈ participants_of st1 A) ∧
  ∀ ins' clock',
    forallb (not_from socket) ins' = true →
    let st2 := state (run st1 ins') in
    let st3 := state (step st2 (FromSocket socket clock' Disconnect)) in
    users st3 !! socket = None ∧
    (∀ p, p ∈ participants_of st3 B → Participant.id p ≠ socket) ∧
    (∀ rc, rc ≠ B → participants_of st3 rc = participants_of st2 rc) ∧
    (B ≠ A → ∃ p, p ∈ participants_of st3 A ∧ Participant.id p = socket).
Proof.
  intros st A Hu Hcap st1 entry.
  pose proof (wf_run ins) as W. fold st in W.
  destruct (wf_users _ W _ _ Hu) as (lA & roomA & HrcA & HlA & HinA).
  fold A in HrcA.
  assert (rooms_get st A = Some (lA, roomA)) as HrA by by apply rooms_get_Some.
  assert (keeps_entry st socket A lA) as K by (split; [done|by exists roomA]).
  assert (wf st1) as W1 by apply wf_step, W.
  assert (keeps_entry st1 socket A lA) as K1.
  { apply keeps_entry_step; [done| |done]. by intros ? ? [=]. }
  assert (participants_of st1 B = (participants_of st B ++ [entry])%list
          ∧ users st1 !! socket = Some (User.mk B username)
          ∧ ∀ p, p ∈ participants_of st A → p ∈ participants_of st1 A)
    as (HB & Hu1 & HA).
  { subst st1. simpl step. unfold participants_of in *.
    destruct (rooms st !! B) as [lB|] eqn:HrcB.
    - destruct (wf_rooms _ W _ _ HrcB) as (roomB & HlB & _).
      assert (rooms_get st B = Some (lB, roomB)) as HrB
        by by apply rooms_get_Some.
      rewrite HrB in Hcap |- *.
      rewrite (join_room_present _ _ _ _ _ _ _ HrB) by done. simpl.
      rewrite (rooms_get_insert _ _ _ _ _ _ _ HrB). simpl.
      split_and!; [done|by rewrite lookup_insert_eq|].
      rewrite HrA. intros p Hp.
      destruct (decide (lB = lA)) as [->|Hne].
      + assert (B = A) as -> by by eapply (wf_inj _ W).
        rewrite (rooms_get_insert _ _ _ _ _ _ _ HrB). simpl.
        apply elem_of_app. left. congruence.
      + set (st' := mkState _ _ _ _).
        assert (rooms_get st' A = Some (lA, roomA)) as ->; [|done].
        apply rooms_get_Some. simpl. split; [done|].
        by rewrite list_lookup_insert_ne.
    - rewrite (rooms_get_None _ _ HrcB).
      rewrite (join_room_absent _ _ _ _ _ HrcB). simpl.
      set (st' := mkState _ _ _ _).
      assert (rooms_get st' B = Some (length (heap st),
                Room.push_participant entry (Room.create recipe))) as ->.
      { apply rooms_get_Some. simpl. split; [by rewrite lookup_insert_eq|].
        apply heap_snoc_lookup. }
      split_and!; [done|by apply lookup_insert_eq|].
      rewrite HrA. intros p Hp.
      assert (rooms_get st' A = Some (lA, roomA)) as ->; [|done].
      apply rooms_get_Some. simpl. split.
      + rewrite lookup_insert_ne; [done|]. congruence.
      + rewrite lookup_app_l; [done|]. by eapply lookup_lt_Some. }
  split_and!; [done|done|by eapply keeps_entry_participant|done|].
  intros ins' clock' Hall st2 st3.
  destruct (run_not_from socket _ ins' st1 Hall W1 Hu1) as [W2 Hu2].
  fold st2 in W2, Hu2.
  destruct (wf_users _ W2 _ _ Hu2) as (lB & roomB & HrcB & HlB & HinB).
  simpl in HrcB.
  assert (rooms_get st2 B = Some (lB, roomB)) as HrB by by apply rooms_get_Some.
  assert (st3 = state (on_disconnect socket st2)) as Hst3 by done.
  rewrite (disconnect_registered _ _ _ _ _ Hu2 HrB) in Hst3. simpl in Hst3.
  set (ps := filter _ _) in Hst3.
  split_and!.
  - rewrite Hst3. simpl. apply lookup_delete_eq.
  - intros p. unfold participants_of.
    destruct (rooms_get st3 B) as [[l room]|] eqn:Hr3;
      [|by intros ?%not_elem_of_nil].
    apply rooms_get_Some in Hr3 as [Hrc3 Hl3]. rewrite Hst3 in Hrc3, Hl3.
    simpl in Hrc3, Hl3.
    assert (l = lB) as ->.
    { case_bool_decide; [by rewrite lookup_delete_eq in Hrc3|congruence]. }
    rewrite (heap_insert_lookup _ _ _ _ _ HlB), decide_True in Hl3 by done.
    injection Hl3 as <-. simpl. by intros [? _]%list_elem_of_filter.
  - intros rc Hne. unfold participants_of.
    assert (rooms_get st3 rc = rooms_get st2 rc) as ->; [|done].
    unfold rooms_get. rewrite Hst3. simpl.
    assert ((if bool_decide (length ps = 0)
             then delete B (rooms st2) else rooms st2) !! rc
            = rooms st2 !! rc) as ->.
    { case_bool_decide; [|done]. by rewrite lookup_delete_ne. }
    destruct (rooms st2 !! rc) as [l|] eqn:Hrc; [|done]. simpl.
    rewrite list_lookup_insert_ne; [done|].
    intros <-. apply Hne. by eapply (wf_inj _ W2).
  - intros HBA. eapply keeps_entry_participant.
    apply keeps_entry_step; [done| |].
    + intros ? user _ Hu'. rewrite Hu2 in Hu'. by injection Hu' as <-.
    + by apply run_keeps_entry.
Qed.

Lemma rejoin_leaves_stale_entry_witness :
  let st := two_cooks in
  let st1 := state (step st (join_ev "s1" "XYZ9" "Alice" stew)) in
  let st2 := state (run st1 [FromSocket "s2" noon (ChatMessage "where are you?")]) in
  let st3 := state (step st2 (FromSocket "s1" noon Disconnect)) in
  users st !! "s1" = Some (User.mk "ABC1" "Alice") ∧
  length (participants_of st "XYZ9") < 8 ∧
  users st1 !! "s1" = Some (User.mk "XYZ9" "Alice") ∧
  participants_of st3 "XYZ9" = [] ∧
  ∃ p, p ∈ participants_of st3 "ABC1" ∧ Participant.id p = "s1".
Proof.
  split; [reflexivity|]. split; [vm_compute; lia|].
  destruct (rejoin_leaves_stale_entry
              [join_ev "s1" "ABC1" "Alice" soup; join_ev "s2" "ABC1" "Bob" stew]
              "s1" noon (User.mk "ABC1" "Alice") "XYZ9" "Alice" stew)
    as (_ & Hu1 & _ & _ & Hlater); [reflexivity|vm_compute; lia|].
  split; [exact Hu1|]. split; [reflexivity|].
  destruct (Hlater [FromSocket "s2" noon (ChatMessage "where are you?")] noon)
    as (_ & _ & _ & Hstale); [reflexivity|].
  apply Hstale. discriminate.
Defined.

(** C10 as stated fails for [B = A]: the connection's disconnect filters
    out every entry with its id, the old one too, so nothing stale is left.
    Here Alice joins [ABC1] twice on one connection and disconnects: the room
    had two entries with her id, and afterwards the room is gone and no room
    object has any participant. *)
Lemma rejoin_same_room_leaves_nothing :
  let st := state (run init [join_ev "s1" "ABC1" "Alice" soup]) in
  let st1 := state (step st (join_ev "s1" "ABC1" "Alice" soup)) in
  let st3 := state (step st1 (FromSocket "s1" noon Disconnect)) in
  users st !! "s1" = Some (User.mk "ABC1" "Alice") ∧
  Participant.id <$> participants_of st1 "ABC1" = ["s1"; "s1"] ∧
  users st1 !! "s1" = Some (User.mk "ABC1" "Alice") ∧
  rooms st3 !! "ABC1" = None ∧
  Room.participants <$> heap st3 = [[]].
Proof. vm_compute. done. Qed.

(** ** The AI question *)

Lemma ai_question_registered socket question st user l room :
  users st !! socket = Some user →
  rooms_get st (User.roomCode user) = Some (l, room) →
  let step_no :=
    match find_participant socket (Room.participants room) with
    | Some (_, p) => Participant.currentStep p
    | None => 0%Z
    end in
  on_ai_question socket question st =
  ret (set_pending (pending st ++ [Some (Pending.mk socket user l)]) st)
    [AxiosPost (length (pending st))
       (contextPrompt (Room.recipe room) step_no question)].
Proof. intros Hu Hr. unfold on_ai_question. by rewrite Hu, Hr. Qed.

(** When the call settles while the asker's room code still refers to the
    room object read before the [await], exactly one message of type [ai] is
    pushed onto that room's log and broadcast; on failure its body is the
    fallback text. *)
Lemma ai_settled_in_live_room st call pc clock outcome room :
  pending st !! call = Some (Some pc) →
  rooms_get st (User.roomCode (Pending.user pc)) = Some (Pending.room pc, room) →
  let res := step st (AiSettled call clock outcome) in
  let body :=
    match outcome with AiAnswered text => text | AiFailed => fallback_text end in
  let m := Message.mk (now clock) ai_chef body (localeTime clock) Message.ai in
  completion res = Returned ∧
  effects res = [EmitRoom (User.roomCode (Pending.user pc)) (new_message m)] ∧
  rooms_get (state res) (User.roomCode (Pending.user pc))
    = Some (Pending.room pc, Room.push_message m room) ∧
  pending (state res) !! call = Some None.
Proof.
  intros Hp Hr. simpl. rewrite Hp. unfold on_ai_settled.
  assert (pending (set_pending (<[call:=None]> (pending st)) st) !! call
          = Some None) as Hdone.
  { simpl. apply list_lookup_insert_eq. by eapply lookup_lt_Some. }
  pose proof Hr as [Hrc Hl]%rooms_get_Some.
  destruct outcome as [text|].
  - simpl. rewrite (heap_alter_insert _ _ _ _ Hl).
    split_and!; [done..| |done].
    apply rooms_get_Some. simpl. split; [done|].
    by rewrite (heap_insert_lookup _ _ _ _ _ Hl), decide_True.
  - assert (rooms_get (set_pending (<[call:=None]> (pending st)) st)
              (User.roomCode (Pending.user pc))
            = Some (Pending.room pc, room)) as -> by by apply rooms_get_Some.
    simpl. split_and!; [done..| |done].
    apply rooms_get_Some. simpl. split; [done|].
    by rewrite (heap_insert_lookup _ _ _ _ _ Hl), decide_True.
Qed.

(** In a well-formed state no client event throws: the only turn that can
    is a failed call settling. *)
Lemma client_events_return st socket clock ev :
  wf st → completion (step st (FromSocket socket clock ev)) = Returned.
Proof.
  intros W. simpl.
  assert (∀ user, users st !! socket = Some user →
            ∃ l room, rooms_get st (User.roomCode user) = Some (l, room)) as Hroom.
  { intros user Hu. destruct (wf_users _ W _ _ Hu) as (l & room & ? & ? & _).
    exists l, room. by apply rooms_get_Some. }
  destruct ev as [rc username recipe|text|S|d|q|ph f|]; simpl.
  - destruct (rooms st !! rc) as [l|] eqn:Hrc.
    + destruct (wf_rooms _ W _ _ Hrc) as (room & Hl & _).
      assert (rooms_get st rc = Some (l, room)) as Hr by by apply rooms_get_Some.
      unfold on_join_room, create_room_if_absent. rewrite Hrc, Hr.
      by case_bool_decide.
    + by rewrite (join_room_absent _ _ _ _ _ Hrc).
  - unfold on_chat_message. destruct (users st !! socket) as [user|]; [|done].
    by destruct (Hroom user eq_refl) as (l & room & ->).
  - unfold on_next_step. destruct (users st !! socket) as [user|]; [|done].
    destruct (Hroom user eq_refl) as (l & room & ->).
    by destruct (find_participant _ _) as [[i p]|].
  - unfold on_start_timer. by destruct (users st !! socket).
  - unfold on_ai_question. destruct (users st !! socket) as [user|]; [|done].
    by destruct (Hroom user eq_refl) as (l & room & ->).
  - unfold on_share_photo. by destruct (users st !! socket).
  - unfold on_disconnect. by destruct (users st !! socket).
Qed.

(** A failed call that settles after its room code left [rooms] throws from
    the [catch] block (line 196) without pushing or broadcasting anything. *)
Lemma ai_failed_without_room st call pc clock :
  pending st !! call = Some (Some pc) →
  rooms st !! User.roomCode (Pending.user pc) = None →
  step st (AiSettled call clock AiFailed)
  = throw (set_pending (<[call := None]> (pending st)) st) [].
Proof.
  intros Hp Hrc. simpl. rewrite Hp. unfold on_ai_settled.
  by rewrite rooms_get_None.
Qed.

(** C3, at the input where the code departs from it.  Alice's question
    is accepted (one outbound call is issued), she disconnects, and the call
    fails.  The run then holds no message of type [ai] at all: no
    [new-message] was broadcast and the log of the only room object ever
    created is empty.  With the same inputs and an answer instead of a
    failure, one [ai] message is pushed and broadcast. *)
Theorem failed_call_after_leave_adds_no_message :
  let ko := run init (asker_leaves_during_call AiFailed) in
  let ok := run init (asker_leaves_during_call (AiAnswered "A pinch.")) in
  new_messages (effects ko) = [] ∧
  Room.messages <$> heap (state ko) = [[]] ∧
  new_messages (effects ok) =
    [Message.mk 1700000000000 ai_chef "A pinch." "12:00:00 PM" Message.ai] ∧
  Room.messages <$> heap (state ok) =
    [[Message.mk 1700000000000 ai_chef "A pinch." "12:00:00 PM" Message.ai]].
Proof. vm_compute. done. Qed.

(** C7, at the input where the code departs from it.  With the room
    deleted while the call was in flight, a successful call returns: it
    pushes onto the detached room object and broadcasts to the room code,
    which [rooms] no longer holds.  A failed call does not return: the
    [catch] block reads [rooms.get(user.roomCode)], gets [undefined], and the
    [TypeError] at line 196 escapes the handler. *)
Theorem failed_call_after_leave_throws :
  let before := run init (removelast (asker_leaves_during_call AiFailed)) in
  let ko := run init (asker_leaves_during_call AiFailed) in
  let ok := run init (asker_leaves_during_call (AiAnswered "A pinch.")) in
  completion before = Returned ∧
  rooms (state before) !! "ABC1" = None ∧
  pending (state before) !! 0
    = Some (Some (Pending.mk "s1" (User.mk "ABC1" "Alice") 0)) ∧
  completion ok = Returned ∧
  rooms (state ok) !! "ABC1" = None ∧
  completion ko = Threw.
Proof. vm_compute. done. Qed.

(** ** The placeholder fields are never read *)

Lemma forget_participants_idemp (ps : list Participant.t) :
  forget_participant <$> (forget_participant <$> ps) = forget_participant <$> ps.
Proof. rewrite <- list_fmap_compose. by apply list_fmap_ext. Qed.

Lemma forget_room_idemp room : forget_room (forget_room room) = forget_room room.
Proof. unfold forget_room. simpl. by rewrite forget_participants_idemp. Qed.

Lemma forget_heap_idemp (h : list Room.t) :
  forget_room <$> (forget_room <$> h) = forget_room <$> h.
Proof.
  rewrite <- list_fmap_compose. apply list_fmap_ext. intros _ room _.
  apply forget_room_idemp.
Qed.

Lemma rooms_get_forget st rc :
  rooms_get (forget_state st) rc = prod_map id forget_room <$> rooms_get st rc.
Proof.
  unfold rooms_get. simpl. destruct (rooms st !! rc) as [l|]; [|done]. simpl.
  rewrite list_lookup_fmap. by destruct (heap st !! l).
Qed.

Lemma find_participant_forget socket (ps : list Participant.t) :
  find_participant socket (forget_participant <$> ps)
  = prod_map id forget_participant <$> find_participant socket ps.
Proof. unfold find_participant. by rewrite list_find_fmap. Qed.

Lemma filter_forget socket (ps : list Participant.t) :
  filter (λ p, Participant.id p ≠ socket) (forget_participant <$> ps)
  = forget_participant <$> filter (λ p, Participant.id p ≠ socket) ps.
Proof.
  induction ps as [|p ps IH]; [done|]. rewrite fmap_cons, !filter_cons.
  simpl. case_decide; by rewrite IH.
Qed.

Lemma forget_heap_insert (h : list Room.t) l room :
  forget_room <$> <[l := room]> h = <[l := forget_room room]> (forget_room <$> h).
Proof. apply list_fmap_insert. Qed.

Lemma forget_state_idemp st : forget_state (forget_state st) = forget_state st.
Proof. unfold forget_state, set_heap. simpl. by rewrite forget_heap_idemp. Qed.

Lemma forget_room_push_message m room :
  forget_room (Room.push_message m (forget_room room))
  = forget_room (Room.push_message m room).
Proof. unfold forget_room. simpl. by rewrite forget_participants_idemp. Qed.

Lemma forget_room_push_participant p room :
  forget_room (Room.push_participant p (forget_room room))
  = forget_room (Room.push_participant p room).
Proof.
  unfold forget_room. simpl. by rewrite !fmap_app, forget_participants_idemp.
Qed.

(** Replacing a room object in the forgotten heap and in the original heap
    by objects that agree up to the placeholder fields. *)
Lemma forget_update st l room1 room2 r u p :
  forget_room room1 = forget_room room2 →
  forget_state (mkState (<[l := room1]> (heap (forget_state st))) r u p)
  = forget_state (mkState (<[l := room2]> (heap st)) r u p).
Proof.
  intros E. unfold forget_state, set_heap. simpl.
  by rewrite !forget_heap_insert, forget_heap_idemp, E.
Qed.

Ltac forget_unfold :=
  unfold forget_result, ret, throw; cbn [state effects completion];
  rewrite ?forget_state_idemp; try done.

Lemma step_forget st i :
  forget_result (step (forget_state st) i) = forget_result (step st i).
Proof.
  destruct i as [socket clock ev|call clock res]; simpl.
  - destruct ev as [rc username recipe|text|S|d|q|ph f|]; simpl.
    + destruct (rooms st !! rc) as [l|] eqn:Hrc.
      * unfold on_join_room, create_room_if_absent. simpl. rewrite Hrc.
        rewrite rooms_get_forget.
        destruct (rooms_get st rc) as [[l' room]|]; simpl; [|by forget_unfold].
        rewrite length_fmap. case_bool_decide; [|by forget_unfold].
        forget_unfold. f_equal.
        -- apply forget_update, forget_room_push_participant.
        -- simpl. by rewrite !fmap_app, forget_participants_idemp.
      * rewrite !join_room_absent by done. forget_unfold. f_equal.
        unfold forget_state, set_heap. simpl.
        by rewrite !fmap_app, forget_heap_idemp, length_fmap.
    + unfold on_chat_message. simpl.
      destruct (users st !! socket) as [user|]; [|by forget_unfold].
      rewrite rooms_get_forget.
      destruct (rooms_get st _) as [[l room]|]; simpl; [|by forget_unfold].
      forget_unfold. f_equal. apply forget_update, forget_room_push_message.
    + unfold on_next_step. simpl.
      destruct (users st !! socket) as [user|]; [|by forget_unfold].
      rewrite rooms_get_forget.
      destruct (rooms_get st _) as [[l room]|]; simpl; [|by forget_unfold].
      rewrite find_participant_forget.
      destruct (find_participant _ _) as [[j p]|]; simpl; [|by forget_unfold].
      forget_unfold. f_equal. apply forget_update.
      unfold forget_room. simpl.
      by rewrite !list_fmap_insert, forget_participants_idemp.
    + unfold on_start_timer. simpl.
      destruct (users st !! socket) as [user|]; by forget_unfold.
    + unfold on_ai_question. simpl.
      destruct (users st !! socket) as [user|]; [|by forget_unfold].
      rewrite rooms_get_forget.
      destruct (rooms_get st _) as [[l room]|]; simpl; [|by forget_unfold].
      rewrite find_participant_forget.
      destruct (find_participant _ _) as [[j p]|]; simpl; forget_unfold.
      all: f_equal; unfold forget_state, set_heap, set_pending; simpl;
        by rewrite forget_heap_idemp.
    + unfold on_share_photo. simpl.
      destruct (users st !! socket) as [user|]; by forget_unfold.
    + destruct (users st !! socket) as [user|] eqn:Hu;
        [|by unfold on_disconnect; simpl; rewrite Hu; forget_unfold].
      destruct (rooms_get st (User.roomCode user)) as [[l room]|] eqn:Hr.
      * assert (rooms_get (forget_state st) (User.roomCode user)
                = Some (l, forget_room room)) as Hr'
          by by rewrite rooms_get_forget, Hr.
        rewrite (disconnect_registered _ _ _ _ _ Hu Hr).
        rewrite (disconnect_registered _ (forget_state st) _ _ _ Hu Hr').
        simpl Room.participants. rewrite filter_forget, length_fmap.
        forget_unfold. f_equal.
        -- apply forget_update. unfold forget_room. simpl.
           by rewrite forget_participants_idemp.
        -- simpl. by rewrite forget_participants_idemp.
      * unfold on_disconnect. simpl. rewrite Hu, rooms_get_forget, Hr. simpl.
        forget_unfold. f_equal.
        unfold forget_state, set_heap, set_users. simpl.
        by rewrite forget_heap_idemp.
  - destruct (pending st !! call) as [[pc|]|]; [|by forget_unfold..].
    unfold on_ai_settled. destruct res as [text|].
    + forget_unfold. f_equal. unfold forget_state, set_heap, set_pending. simpl.
      f_equal. set (m := Message.mk _ _ _ _ _).
      rewrite !(list_fmap_alter forget_room _ (Room.push_message m))
        by by apply Forall_true.
      by rewrite forget_heap_idemp.
    + change (rooms_get (set_pending ?p ?s) ?rc) with (rooms_get s rc).
      rewrite rooms_get_forget.
      destruct (rooms_get st _) as [[l room]|]; simpl.
      * forget_unfold. f_equal.
        apply (forget_update st), forget_room_push_message.
      * forget_unfold. f_equal. unfold forget_state, set_heap, set_pending.
        simpl. by rewrite forget_heap_idemp.
Qed.

(** ** Fields that are initialised and never touched again *)

Lemma room_step_fields room room' :
  room_step room room' →
  Room.currentStep room' = Room.currentStep room ∧
  Room.startTime room' = Room.startTime room ∧
  (Forall not_ready (Room.participants room) →
   Forall not_ready (Room.participants room')).
Proof.
  destruct 1 as [m|socket username|socket|i p S Hi]; simpl;
    (split; [done|]); (split; [done|]); intros Hall.
  - done.
  - apply Forall_app_2; [done|]. by apply Forall_singleton.
  - apply Forall_forall. intros p [_ Hp]%list_elem_of_filter.
    by eapply Forall_forall in Hall.
  - apply Forall_insert; [done|].
    eapply Forall_lookup in Hall; [|done]. done.
Qed.

Lemma room_step_placeholders room room' :
  room_step room room' → placeholders_intact room → placeholders_intact room'.
Proof.
  intros (Hs & Ht & Hr)%room_step_fields (H1 & H2 & H3).
  split_and!; [congruence..|by apply Hr].
Qed.

Lemma heap_step_placeholders h h' :
  heap_step h h' → Forall placeholders_intact h → Forall placeholders_intact h'.
Proof.
  intros [|l room room' Hl Hrs|socket username recipe] Hall.
  - done.
  - apply Forall_insert; [done|]. apply (room_step_placeholders room); [done|].
    by eapply Forall_lookup in Hall.
  - apply Forall_app_2; [done|]. apply Forall_singleton.
    split_and!; [done..|]. simpl. by apply Forall_singleton.
Qed.

(** C9. In every state the server reaches, every room object ever
    created (in [rooms] or detached from it) has [currentStep] 0 and
    [startTime] null, and every participant entry has [isReady] false.
    No turn writes them: from any state whatever, one turn leaves
    [currentStep] and [startTime] of every existing room object as they
    were.  No turn reads them: from two states that differ only in these
    three fields, a turn ends the same way, with the same effects and the
    same state, up to these fields. *)
Theorem placeholder_fields_never_change ins :
  let st := state (run init ins) in
  Forall placeholders_intact (heap st) ∧
  (∀ rc l room, rooms_get st rc = Some (l, room) →
     Room.currentStep room = 0%Z ∧ Room.startTime room = None ∧
     ∀ p, p ∈ Room.participants room → Participant.isReady p = false) ∧
  (∀ st0 i l room, heap st0 !! l = Some room →
     ∃ room', heap (state (step st0 i)) !! l = Some room' ∧
       Room.currentStep room' = Room.currentStep room ∧
       Room.startTime room' = Room.startTime room) ∧
  (∀ st1 st2 i, forget_state st1 = forget_state st2 →
     forget_result (step st1 i) = forget_result (step st2 i)).
Proof.
  intros st.
  assert (Forall placeholders_intact (heap st)) as Hall.
  { apply (run_invariant (λ st, Forall placeholders_intact (heap st))).
    - intros st0 i. apply heap_step_placeholders, step_heap_step.
    - by apply Forall_nil. }
  split_and!; [done| | |].
  - intros rc l room [_ Hl]%rooms_get_Some.
    eapply Forall_lookup in Hall as (H1 & H2 & H3); [|done].
    split_and!; [done..|]. intros p Hp. by eapply Forall_forall in H3.
  - intros st0 i l room Hl.
    destruct (step_heap_step st0 i) as [|l0 room0 room0' Hl0 Hrs|s u r].
    + by exists room.
    + rewrite (heap_insert_lookup _ _ _ _ _ Hl0).
      destruct (decide (l0 = l)) as [->|]; [|by exists room].
      exists room0'. split; [done|].
      destruct (room_step_fields _ _ Hrs) as (H1 & H2 & _).
      split; congruence.
    + exists room. split; [|done]. rewrite lookup_app_l; [done|].
      by eapply lookup_lt_Some.
  - intros st1 st2 i E.
    by rewrite <- (step_forget st1), <- (step_forget st2), E.
Qed.

Lemma placeholder_fields_never_change_witness :
  let i := FromSocket "s2" noon (NextStep 3) in
  (∃ room,
     rooms_get (state (step two_cooks i)) "ABC1" = Some (0, room) ∧
     Room.currentStep room = 0%Z ∧ Room.startTime room = None ∧
     (Participant.currentStep <$> Room.participants room) = [0%Z; 3%Z] ∧
     (Participant.isReady <$> Room.participants room) = [false; false]) ∧
  (∃ room',
     heap (state (step two_cooks_marked i)) !! 0 = Some room' ∧
     Room.currentStep room' = 7%Z ∧
     Room.startTime room' = Some 1690000000000%Z) ∧
  forget_state two_cooks = forget_state two_cooks_marked ∧
  forget_result (step two_cooks i) = forget_result (step two_cooks_marked i).
Proof.
  destruct (placeholder_fields_never_change
              [join_ev "s1" "ABC1" "Alice" soup; join_ev "s2" "ABC1" "Bob" stew;
               FromSocket "s2" noon (NextStep 3)])
    as (_ & Hin & Hframe & Hread).
  split_and!.
  - eexists. split; [reflexivity|].
    destruct (Hin "ABC1" 0 _ eq_refl) as (H1 & H2 & _).
    split; [exact H1|]. split; [exact H2|]. split; reflexivity.
  - exact (Hframe two_cooks_marked (FromSocket "s2" noon (NextStep 3)) 0 _
             eq_refl).
  - reflexivity.
  - apply Hread. reflexivity.
Defined.

(** * Further properties of the handlers *)

(** ** Which turns can throw *)

Lemma ai_answered_returns st call clock text :
  completion (step st (AiSettled call clock (AiAnswered text))) = Returned.
Proof. simpl. by destruct (pending st !! call) as [[pc|]|]. Qed.

Lemma run_returns ins : ∀ st,
  wf st → forallb (negb ∘ failed_call) ins = true →
  completion (run st ins) = Returned.
Proof.
  induction ins as [|i ins IH]; intros st W Hall; [done|].
  simpl in Hall. apply andb_prop in Hall as [Hi Hall].
  assert (completion (step st i) = Returned) as Hc.
  { destruct i as [socket clock ev|call clock [text|]]; [| |done].
    - by apply client_events_return.
    - apply ai_answered_returns. }
  rewrite run_cons, Hc. simpl. apply IH; [by apply wf_step|done].
Qed.

(** X1. For client events whose payload is an object with the fields
    of the protocol, typed as the protocol types them (the events of type
    [ClientEvent]): from the start of the server, a run of such events and
    of settled calls in which no outbound call fails never lets an error
    escape a handler.  Every such event and every answered call returns,
    because the lookups of [rooms.get(user.roomCode)] at lines 92, 103 and
    133 always find a room.  (An event without a payload object is outside
    this: destructuring it at line 39, or reading a field of it, throws.) *)
Theorem only_failed_call_can_throw ins :
  forallb (negb ∘ failed_call) ins = true →
  completion (run init ins) = Returned.
Proof. apply run_returns, wf_init. Qed.

Lemma only_failed_call_can_throw_witness :
  completion (run init (asker_leaves_during_call (AiAnswered "A pinch.")))
  = Returned.
Proof.
  apply only_failed_call_can_throw. reflexivity.
Defined.

(** X2. In every state the server reaches, a registered connection's
    room code is a key of [rooms], and that room's participant list has an
    entry with the connection's id. *)
Theorem registered_connection_is_in_its_room ins socket user :
  let st := state (run init ins) in
  users st !! socket = Some user →
  ∃ l room p,
    rooms_get st (User.roomCode user) = Some (l, room) ∧
    p ∈ Room.participants room ∧
    Participant.id p = socket.
Proof.
  intros st Hu. pose proof (wf_run ins) as W. fold st in W.
  destruct (wf_users _ W _ _ Hu) as (l & room & Hrc & Hl & Hin).
  apply list_elem_of_fmap in Hin as (p & -> & Hp).
  exists l, room, p. split; [by apply rooms_get_Some|done].
Qed.

Lemma registered_connection_is_in_its_room_witness :
  ∃ l room p,
    rooms_get two_cooks "ABC1" = Some (l, room) ∧
    p ∈ Room.participants room ∧
    Participant.id p = "s2".
Proof.
  apply (registered_connection_is_in_its_room
           [join_ev "s1" "ABC1" "Alice" soup; join_ev "s2" "ABC1" "Bob" stew]
           "s2" (User.mk "ABC1" "Bob")).
  vm_compute. reflexivity.
Defined.

(** ** Capacity *)

Lemma step_within_capacity st i :
  Forall within_capacity (heap st) →
  Forall within_capacity (heap (state (step st i))).
Proof.
  intros Hall.
  assert (∀ l room room', heap st !! l = Some room →
            (length (Room.participants room') ≤ 8)%nat →
            Forall within_capacity (<[l := room']> (heap st))) as Hupd.
  { intros l room room' _ Hle. by apply Forall_insert. }
  assert (∀ l room, heap st !! l = Some room → within_capacity room) as Hget.
  { intros l room Hl. by eapply Forall_lookup in Hall. }
  destruct i as [socket clock ev|call clock res]; simpl.
  - destruct ev as [rc username recipe|text|S|d|q|ph f|]; simpl.
    + destruct (rooms st !! rc) as [l|] eqn:Hrc.
      * destruct (rooms_get st rc) as [[l' room]|] eqn:Hr.
        -- destruct (decide (length (Room.participants room) < 8)).
           ++ rewrite (join_room_present _ _ _ _ _ _ _ Hr) by done. simpl.
              apply rooms_get_Some in Hr as [_ Hl].
              apply (Hupd _ _ _ Hl). simpl. rewrite length_app. simpl. lia.
           ++ by rewrite (join_room_full _ _ _ _ _ _ _ Hr) by lia.
        -- unfold on_join_room, create_room_if_absent. by rewrite Hrc, Hr.
      * rewrite (join_room_absent _ _ _ _ _ Hrc). simpl.
        apply Forall_app_2; [done|]. apply Forall_singleton.
        unfold within_capacity. simpl. lia.
    + unfold on_chat_message. destruct (users st !! socket); [|done].
      destruct (rooms_get st _) as [[l room]|] eqn:Hr; [|done].
      apply rooms_get_Some in Hr as [_ Hl]. simpl.
      apply (Hupd _ _ _ Hl). apply (Hget _ _ Hl).
    + unfold on_next_step. destruct (users st !! socket); [|done].
      destruct (rooms_get st _) as [[l room]|] eqn:Hr; [|done].
      apply rooms_get_Some in Hr as [_ Hl].
      destruct (find_participant _ _) as [[j p]|]; [|done]. simpl.
      apply (Hupd _ _ _ Hl). simpl. rewrite length_insert.
      apply (Hget _ _ Hl).
    + unfold on_start_timer. by destruct (users st !! socket).
    + unfold on_ai_question. destruct (users st !! socket); [|done].
      by destruct (rooms_get st _) as [[l room]|].
    + unfold on_share_photo. by destruct (users st !! socket).
    + destruct (users st !! socket) as [user|] eqn:Hu;
        [|by unfold on_disconnect; rewrite Hu].
      destruct (rooms_get st (User.roomCode user)) as [[l room]|] eqn:Hr;
        [|by unfold on_disconnect; rewrite Hu, Hr].
      rewrite (disconnect_registered _ _ _ _ _ Hu Hr). simpl.
      apply rooms_get_Some in Hr as [_ Hl]. apply (Hupd _ _ _ Hl). simpl.
      etrans; [apply length_filter|]. apply (Hget _ _ Hl).
  - destruct (pending st !! call) as [[pc|]|]; [|done..].
    unfold on_ai_settled. destruct res as [text|].
    + simpl. destruct (heap st !! Pending.room pc) as [room|] eqn:Hl.
      * rewrite (heap_alter_insert _ _ _ _ Hl). apply (Hupd _ _ _ Hl).
        apply (Hget _ _ Hl).
      * by rewrite (heap_alter_dangling _ _ _ Hl).
    + destruct (rooms_get _ _) as [[l room]|] eqn:Hr; [|done].
      apply rooms_get_Some in Hr as [_ Hl]. simpl in *.
      apply (Hupd _ _ _ Hl). apply (Hget _ _ Hl).
Qed.

Lemma run_within_capacity ins :
  Forall within_capacity (heap (state (run init ins))).
Proof.
  apply (run_invariant (λ st, Forall within_capacity (heap st))).
  - intros st i. apply step_within_capacity.
  - by apply Forall_nil.
Qed.

(** X3. In every state the server reaches, whatever the order of
    joins, re-joins and disconnects, no room has more than 8 participant
    entries. *)
Theorem room_never_exceeds_capacity ins rc l room :
  rooms_get (state (run init ins)) rc = Some (l, room) →
  (length (Room.participants room) ≤ 8)%nat.
Proof.
  intros [_ Hl]%rooms_get_Some.
  pose proof (run_within_capacity ins) as Hall.
  by eapply Forall_lookup in Hall.
Qed.

Lemma room_never_exceeds_capacity_witness :
  ∃ room,
    rooms_get (state (run init (eight_joins_by_one
                                  ++ [join_ev "s9" "R" "Ivy" stew]))) "R"
    = Some (0, room) ∧
    (length (Room.participants room) ≤ 8)%nat.
Proof.
  eexists. split; [vm_compute; reflexivity|].
  apply (room_never_exceeds_capacity
           (eight_joins_by_one ++ [join_ev "s9" "R" "Ivy" stew]) "R" 0).
  vm_compute. reflexivity.
Defined.

(** ** The message log *)

(** X4. From any state and over any inputs, a room object stays in
    the heap and its message log only grows at the end: the log it had is a
    prefix of the log it has afterwards.  No handler edits, reorders or
    removes a message. *)
Theorem message_log_append_only st ins l room :
  heap st !! l = Some room →
  ∃ room',
    heap (state (run st ins)) !! l = Some room' ∧
    Room.messages room `prefix_of` Room.messages room'.
Proof. apply run_log. Qed.

Lemma message_log_append_only_witness :
  let st := state (run init alice_alone) in
  ∃ room',
    heap (state (run st [FromSocket "s1" noon (ChatMessage "still here");
                         FromSocket "s1" noon Disconnect])) !! 0 = Some room' ∧
    [Message.mk 1700000000000 "Alice" "hi" "12:00:00 PM" Message.user]
      `prefix_of` Room.messages room'.
Proof.
  apply (message_log_append_only (state (run init alice_alone)) _ 0
           (Room.mk [Participant.mk "s1" "Alice" 0 false] soup None
              [Message.mk 1700000000000 "Alice" "hi" "12:00:00 PM" Message.user]
              0)).
  vm_compute. reflexivity.
Defined.

(** ** After a disconnect *)

Lemma room_scoped_unregistered st socket clock ev :
  users st !! socket = None → room_scoped ev = true →
  step st (FromSocket socket clock ev) = ret st [].
Proof.
  intros Hu Hev. destruct ev; try discriminate; simpl.
  - unfold on_chat_message. by rewrite Hu.
  - unfold on_next_step. by rewrite Hu.
  - unfold on_start_timer. by rewrite Hu.
  - unfold on_ai_question. by rewrite Hu.
  - unfold on_share_photo. by rewrite Hu.
  - unfold on_disconnect. by rewrite Hu.
Qed.

Lemma disconnect_unregisters st socket :
  completion (on_disconnect socket st) = Returned ∧
  users (state (on_disconnect socket st)) !! socket = None.
Proof.
  unfold on_disconnect. destruct (users st !! socket) as [user|] eqn:Hu.
  - simpl. split; [done|]. apply lookup_delete_eq.
  - done.
Qed.

(** X5. From any state, a disconnect returns and leaves the
    connection unregistered, whether or not it was registered and whether
    or not its room still existed; any room-scoped event of that connection
    that follows, a second disconnect included, does nothing at all. *)
Theorem disconnect_then_silent st socket clock clock' ev :
  room_scoped ev = true →
  let res := step st (FromSocket socket clock Disconnect) in
  completion res = Returned ∧
  users (state res) !! socket = None ∧
  step (state res) (FromSocket socket clock' ev) = ret (state res) [].
Proof.
  intros Hev res. destruct (disconnect_unregisters st socket) as [Hc Hu].
  split_and!; [done..|]. by apply room_scoped_unregistered.
Qed.

Lemma disconnect_then_silent_witness :
  let res := step two_cooks (FromSocket "s1" noon Disconnect) in
  users two_cooks !! "s1" = Some (User.mk "ABC1" "Alice") ∧
  step (state res) (FromSocket "s1" noon (ChatMessage "bye")) = ret (state res) [] ∧
  step (state res) (FromSocket "s1" noon Disconnect) = ret (state res) [].
Proof.
  split; [vm_compute; reflexivity|]. split.
  - apply (disconnect_then_silent two_cooks "s1" noon noon (ChatMessage "bye")).
    reflexivity.
  - apply (disconnect_then_silent two_cooks "s1" noon noon Disconnect).
    reflexivity.
Defined.

(** X6. When a registered connection whose room exists disconnects,
    the room is sent one [user-left] carrying the connection's registered
    name and the remaining entries: the room's entries in their order, less
    every entry with the connection's id.  These are the room's participants
    afterwards, only this connection leaves the registry, and when somebody
    remains the room stays in [rooms] with its log as it was. *)
Theorem disconnect_lists_remaining st socket clock user l room :
  users st !! socket = Some user →
  rooms_get st (User.roomCode user) = Some (l, room) →
  let res := step st (FromSocket socket clock Disconnect) in
  let rest := filter (λ p, Participant.id p ≠ socket) (Room.participants room) in
  effects res =
    [EmitRoom (User.roomCode user) (user_left (User.username user) rest)] ∧
  participants_of (state res) (User.roomCode user) = rest ∧
  users (state res) = delete socket (users st) ∧
  (rest ≠ [] →
   rooms (state res) = rooms st ∧
   messages_of (state res) (User.roomCode user) = Room.messages room).
Proof.
  intros Hu Hr res rest. subst res. simpl step.
  rewrite (disconnect_registered _ _ _ _ _ Hu Hr). fold rest. simpl.
  split; [done|]. unfold participants_of, messages_of.
  pose proof Hr as [Hrc Hl]%rooms_get_Some.
  case_bool_decide as Hlen.
  - assert (rest = []) as Hnil by by destruct rest.
    rewrite rooms_get_None by (simpl; apply lookup_delete_eq).
    split_and!; [done..|]. by intros [].
  - rewrite (rooms_get_insert _ _ _ _ _ _ _ Hr). by split_and!.
Qed.

Lemma disconnect_lists_remaining_witness :
  let res := step two_cooks (FromSocket "s1" noon Disconnect) in
  effects res =
    [EmitRoom "ABC1"
       (user_left "Alice" [Participant.mk "s2" "Bob" 0 false])] ∧
  participants_of (state res) "ABC1" = [Participant.mk "s2" "Bob" 0 false].
Proof.
  destruct (disconnect_lists_remaining two_cooks "s1" noon
              (User.mk "ABC1" "Alice") 0
              (Room.mk [Participant.mk "s1" "Alice" 0 false;
                        Participant.mk "s2" "Bob" 0 false] soup None [] 0))
    as (He & Hp & _); [vm_compute; reflexivity..|].
  split; [exact He|exact Hp].
Defined.

(** ** Join order *)

Lemma participants_of_get st rc l room :
  rooms_get st rc = Some (l, room) →
  participants_of st rc = Room.participants room.
Proof. unfold participants_of. by intros ->. Qed.

Lemma run_joins_order rc ins : ∀ st l room,
  rooms_get st rc = Some (l, room) →
  (length (Room.participants room) ≤ 8)%nat →
  forallb (is_join_to rc) ins = true →
  participants_of (state (run st ins)) rc
  = take 8 (Room.participants room ++ omap join_entry ins).
Proof.
  induction ins as [|i ins IH]; intros st l room Hr Hle Hall.
  - simpl. rewrite app_nil_r, take_ge by done.
    by apply (participants_of_get _ _ l).
  - simpl in Hall. apply andb_prop in Hall as [Hi Hall].
    destruct i as [socket clock [rc' username recipe| | | | | |]|]; try done.
    simpl in Hi. apply bool_decide_eq_true_1 in Hi as ->.
    rewrite run_cons. simpl step. simpl omap.
    destruct (decide (length (Room.participants room) < 8)) as [Hlt|Hge].
    + rewrite (join_room_present _ _ _ _ _ _ _ Hr Hlt). simpl.
      set (entry := Participant.mk _ _ _ _).
      set (st1 := mkState _ _ _ _).
      assert (rooms_get st1 rc = Some (l, Room.push_participant entry room))
        as Hr1 by by apply (rooms_get_insert _ _ _ room).
      rewrite (IH st1 l _ Hr1 ltac:(simpl; rewrite length_app; simpl; lia) Hall).
      simpl. by rewrite <- app_assoc.
    + rewrite (join_room_full _ _ _ _ _ _ _ Hr) by lia. simpl.
      rewrite (IH st l room Hr Hle Hall).
      by rewrite !take_app_le by lia.
Qed.

(** X7. After any sequence of join-room events for a fresh room code,
    the room's participant list is the entries of the first 8 joins, in the
    order the joins came, each with step 0 and the id and name of its join:
    insertion order is join order, and nothing is queued past the eighth. *)
Theorem participants_in_join_order st rc ins :
  rooms st !! rc = None →
  forallb (is_join_to rc) ins = true →
  participants_of (state (run st ins)) rc = take 8 (omap join_entry ins).
Proof.
  intros Hrc Hall. destruct ins as [|i ins].
  - simpl. unfold participants_of. by rewrite rooms_get_None.
  - simpl in Hall. apply andb_prop in Hall as [Hi Hall].
    destruct i as [socket clock [rc' username recipe| | | | | |]|]; try done.
    simpl in Hi. apply bool_decide_eq_true_1 in Hi as ->.
    rewrite run_cons. simpl step. rewrite (join_room_absent _ _ _ _ _ Hrc).
    simpl. set (room1 := Room.push_participant _ _).
    set (st1 := mkState _ _ _ _).
    assert (rooms_get st1 rc = Some (length (heap st), room1)) as Hr1.
    { apply rooms_get_Some. simpl. split; [by rewrite lookup_insert_eq|].
      apply heap_snoc_lookup. }
    by rewrite (run_joins_order rc ins st1 _ room1 Hr1 ltac:(simpl; lia) Hall).
Qed.

Lemma participants_in_join_order_witness :
  Participant.username <$>
    participants_of
      (state (run init [join_ev "s1" "K" "Ann" soup; join_ev "s2" "K" "Ben" stew;
                        join_ev "s1" "K" "Cat" None])) "K"
  = ["Ann"; "Ben"; "Cat"].
Proof.
  rewrite (participants_in_join_order init "K"); [reflexivity..].
Defined.

(** ** Timer and photo relays *)

(** X8. A run of start-timer and share-photo events always returns
    and leaves the whole state as it was: nothing of a timer or a photo is
    stored, so a later joiner's [user-joined] cannot carry them.  The effects
    are, in the order of the events, one broadcast per event of a registered
    connection, to that connection's room, with the payload as sent, and
    nothing for an unregistered one. *)
Theorem relay_events_leave_no_trace st ins :
  forallb is_relay ins = true →
  run st ins = ret st (omap (relay_effect (users st)) ins).
Proof.
  induction ins as [|i ins IH]; intros Hall; [done|].
  simpl in Hall. apply andb_prop in Hall as [Hi Hall].
  specialize (IH Hall). rewrite run_cons.
  destruct i as [socket clock [| | |d| |ph f|]|]; try done; simpl.
  - unfold on_start_timer.
    destruct (users st !! socket) as [user|]; simpl; by rewrite IH.
  - unfold on_share_photo.
    destruct (users st !! socket) as [user|]; simpl; by rewrite IH.
Qed.

Lemma relay_events_leave_no_trace_witness :
  run two_cooks
    [FromSocket "s2" noon (StartTimer 90);
     FromSocket "s7" noon (StartTimer 5);
     FromSocket "s1" noon (SharePhoto "iVBORw0KGgo=" "soup.png")]
  = ret two_cooks
      [EmitRoom "ABC1" (timer_started 90 "Bob");
       EmitRoom "ABC1"
         (photo_shared "Alice" "iVBORw0KGgo=" "soup.png" "12:00:00 PM")].
Proof.
  rewrite relay_events_leave_no_trace; [|reflexivity].
  vm_compute. reflexivity.
Defined.

(** ** One room object per turn *)

(** X9. No turn changes two room objects: of any two distinct room
    objects in the heap, at least one is exactly as it was after the turn. *)
Theorem turn_changes_at_most_one_room st i l1 l2 room1 room2 :
  l1 ≠ l2 →
  heap st !! l1 = Some room1 →
  heap st !! l2 = Some room2 →
  heap (state (step st i)) !! l1 = Some room1 ∨
  heap (state (step st i)) !! l2 = Some room2.
Proof.
  intros Hne H1 H2.
  destruct (step_heap_step st i) as [|l room room' Hl _|socket username recipe].
  - by left.
  - destruct (decide (l = l1)) as [->|].
    + right. by rewrite list_lookup_insert_ne.
    + left. by rewrite list_lookup_insert_ne.
  - left. rewrite lookup_app_l; [done|]. by eapply lookup_lt_Some.
Qed.

Lemma turn_changes_at_most_one_room_witness :
  let st' := state (step two_rooms (FromSocket "s1" noon (ChatMessage "hi"))) in
  (Room.messages <$> heap st' !! 0) ≠ (Room.messages <$> heap two_rooms !! 0) ∧
  heap st' !! 1 = heap two_rooms !! 1.
Proof.
  split; [vm_compute; discriminate|].
  destruct (turn_changes_at_most_one_room two_rooms
              (FromSocket "s1" noon (ChatMessage "hi")) 0 1
              (Room.mk [Participant.mk "s1" "Alice" 0 false;
                        Participant.mk "s2" "Bob" 0 false] soup None [] 0)
              (Room.mk [Participant.mk "s3" "Cy" 0 false] None None [] 0))
    as [H|H]; [done|vm_compute; reflexivity..| |].
  - vm_compute in H. discriminate.
  - rewrite H. vm_compute. reflexivity.
Defined.

(** ** Rooms are independent *)

Lemma rooms_get_other st rc rc' l room' r' u p :
  wf st → rooms st !! rc = Some l → rc' ≠ rc →
  r' !! rc' = rooms st !! rc' →
  rooms_get (mkState (<[l := room']> (heap st)) r' u p) rc' = rooms_get st rc'.
Proof.
  intros W Hrc Hne Hr'. unfold rooms_get. simpl. rewrite Hr'.
  destruct (rooms st !! rc') as [l'|] eqn:Hrc'; [|done]. simpl.
  rewrite list_lookup_insert_ne; [done|].
  intros <-. apply Hne. by eapply (wf_inj _ W).
Qed.

(** X10. In every state the server reaches, a room-scoped event of a
    connection registered in room [rc] leaves every other room code exactly
    as it was (same room object, same participants, log and recipe), emits
    nothing but broadcasts to [rc] (and, for an AI question, the outbound
    call), and leaves every other connection's registration as it was. *)
Theorem events_touch_only_own_room ins socket clock ev user rc' :
  let st := state (run init ins) in
  users st !! socket = Some user →
  room_scoped ev = true →
  rc' ≠ User.roomCode user →
  let res := step st (FromSocket socket clock ev) in
  rooms_get (state res) rc' = rooms_get st rc' ∧
  forallb (addressed_to (User.roomCode user)) (effects res) = true ∧
  ∀ socket', socket' ≠ socket → users (state res) !! socket' = users st !! socket'.
Proof.
  intros st Hu Hev Hne res.
  pose proof (wf_run ins) as W. fold st in W.
  destruct (wf_users _ W _ _ Hu) as (l & room & Hrc & Hl & _).
  assert (rooms_get st (User.roomCode user) = Some (l, room)) as Hr
    by by apply rooms_get_Some.
  split_and!; [| |].
  3:{ intros socket' Hs. apply users_step_other. simpl.
      by apply bool_decide_eq_true_2. }
  all: subst res; destruct ev as [|text|S|d|q|ph f|]; try discriminate;
    simpl step.
  - rewrite (chat_message_registered _ _ _ _ _ _ _ Hu Hr). simpl.
    by apply (rooms_get_other st (User.roomCode user)).
  - unfold on_next_step. rewrite Hu, Hr.
    destruct (find_participant _ _) as [[j p]|]; [|done]. simpl.
    by apply (rooms_get_other st (User.roomCode user)).
  - unfold on_start_timer. by rewrite Hu.
  - by rewrite (ai_question_registered _ _ _ _ _ _ Hu Hr).
  - unfold on_share_photo. by rewrite Hu.
  - rewrite (disconnect_registered _ _ _ _ _ Hu Hr). simpl.
    apply (rooms_get_other st (User.roomCode user)); [done..|].
    case_bool_decide; [|done]. by rewrite lookup_delete_ne.
  - rewrite (chat_message_registered _ _ _ _ _ _ _ Hu Hr). simpl.
    by rewrite bool_decide_eq_true_2.
  - unfold on_next_step. rewrite Hu, Hr.
    destruct (find_participant _ _) as [[j p]|]; [|done]. simpl.
    by rewrite bool_decide_eq_true_2.
  - unfold on_start_timer. rewrite Hu. simpl. by rewrite bool_decide_eq_true_2.
  - by rewrite (ai_question_registered _ _ _ _ _ _ Hu Hr).
  - unfold on_share_photo. rewrite Hu. simpl. by rewrite bool_decide_eq_true_2.
  - rewrite (disconnect_registered _ _ _ _ _ Hu Hr). simpl.
    by rewrite bool_decide_eq_true_2.
Qed.

Lemma events_touch_only_own_room_witness :
  let res := step two_rooms (FromSocket "s3" noon Disconnect) in
  rooms (state res) !! "XYZ9" = None ∧
  rooms_get (state res) "ABC1" = rooms_get two_rooms "ABC1" ∧
  users (state res) !! "s1" = users two_rooms !! "s1".
Proof.
  split; [vm_compute; reflexivity|].
  destruct (events_touch_only_own_room
              [join_ev "s1" "ABC1" "Alice" soup; join_ev "s2" "ABC1" "Bob" stew;
               join_ev "s3" "XYZ9" "Cy" None]
              "s3" noon Disconnect (User.mk "XYZ9" "Cy") "ABC1")
    as (Hroom & _ & Hreg);
    [vm_compute; reflexivity|reflexivity|discriminate|].
  split; [exact Hroom|]. apply Hreg. discriminate.
Defined.

(** ** What the assistant is asked *)

Lemma find_participant_set_step socket (ps : list Participant.t) i p S :
  find_participant socket ps = Some (i, p) →
  find_participant socket (<[i := Participant.set_currentStep S p]> ps)
  = Some (i, Participant.set_currentStep S p).
Proof.
  unfold find_participant. intros (Hi & Hid & Hbefore)%list_find_Some.
  apply list_find_Some. split_and!.
  - apply list_lookup_insert_eq. by eapply lookup_lt_Some.
  - done.
  - intros j y Hj Hlt. rewrite list_lookup_insert_ne in Hj by lia.
    by eapply Hbefore.
Qed.

(** X11. The prompt sent for an AI question carries the step the
    asker last set: after a next-step with value [S], the connection's
    ai-question issues exactly one outbound call whose prompt is built from
    the room's recipe, [S] and the question.  This is stated for [S] and a
    cooking time of absolute value below 2^53, where the template prints
    them in decimal.  The question itself is not added to any log and
    nothing is broadcast for it; rooms and registry are as they were. *)
Theorem next_step_feeds_ai_prompt st socket clock clock' S q user l room i p :
  users st !! socket = Some user →
  rooms_get st (User.roomCode user) = Some (l, room) →
  find_participant socket (Room.participants room) = Some (i, p) →
  safe_integer S →
  safe_recipe (Room.recipe room) →
  let st1 := state (step st (FromSocket socket clock (NextStep S))) in
  let res := step st1 (FromSocket socket clock' (AiQuestion q)) in
  completion res = Returned ∧
  effects res =
    [AxiosPost (length (pending st)) (contextPrompt (Room.recipe room) S q)] ∧
  heap (state res) = heap st1 ∧
  rooms (state res) = rooms st ∧
  users (state res) = users st.
Proof.
  intros Hu Hr Hf _ _ st1 res. subst res st1. simpl step.
  unfold on_next_step. rewrite Hu, Hr, Hf. simpl.
  set (st1 := set_heap _ st).
  assert (rooms_get st1 (User.roomCode user)
          = Some (l, Room.set_participants
                       (<[i := Participant.set_currentStep S p]>
                          (Room.participants room)) room)) as Hr1
    by by apply (rooms_get_insert _ _ _ room).
  rewrite (ai_question_registered _ _ st1 _ _ _ Hu Hr1). simpl.
  by rewrite (find_participant_set_step _ _ _ _ _ Hf).
Qed.

Lemma next_step_feeds_ai_prompt_witness :
  let st1 := state (step two_cooks (FromSocket "s2" noon (NextStep 4))) in
  effects (step st1 (FromSocket "s2" noon (AiQuestion "Is it done?")))
  = [AxiosPost 0 (contextPrompt soup 4 "Is it done?")].
Proof.
  refine (proj1 (proj2 (next_step_feeds_ai_prompt two_cooks "s2" noon noon 4
    "Is it done?" (User.mk "ABC1" "Bob") 0
    (Room.mk [Participant.mk "s1" "Alice" 0 false;
              Participant.mk "s2" "Bob" 0 false] soup None [] 0)
    1 (Participant.mk "s2" "Bob" 0 false) _ _ _ _ _)));
    first [ vm_compute; reflexivity
          | unfold safe_recipe, safe_integer; simpl; lia ].
Defined.

Lemma string_length_app (s t : string) :
  String.length (s ++ t) = String.length s + String.length t.
Proof. induction s as [|a s IH]; simpl; [done|]. by rewrite IH. Qed.

Lemma string_app_inv_tail (s1 s2 t : string) : s1 ++ t = s2 ++ t → s1 = s2.
Proof.
  revert s2. induction s1 as [|a s1 IH]; intros [|b s2] H.
  - done.
  - apply (f_equal String.length) in H.
    rewrite !string_length_app in H. simpl in H. lia.
  - apply (f_equal String.length) in H.
    rewrite !string_length_app in H. simpl in H. lia.
  - change (String a (s1 ++ t) = String b (s2 ++ t)) in H.
    injection H as -> H. f_equal. by apply IH.
Qed.

(** X12. The question goes into the prompt whole: for the same recipe
    and step, two prompts are equal only if the questions are equal.
    Nothing of the question is cut, trimmed or escaped. *)
Theorem prompt_keeps_question recipe step q1 q2 :
  contextPrompt recipe step q1 = contextPrompt recipe step q2 → q1 = q2.
Proof.
  unfold contextPrompt. cbv zeta. intros H.
  repeat match type of H with
         | String.append ?a _ = String.append ?a _ =>
             apply (String.app_inj a) in H
         end.
  by apply string_app_inv_tail in H.
Qed.

Lemma prompt_keeps_question_witness :
  contextPrompt soup 2 "salt? " ≠ contextPrompt soup 2 "salt?".
Proof.
  intros H. apply prompt_keeps_question in H. discriminate.
Defined.

(** ** The answer of the assistant *)

(** A pending call stays pending until its own settling. *)
Lemma pending_step_other st i call pc :
  pending st !! call = Some (Some pc) →
  settles call i = false →
  pending (state (step st i)) !! call = Some (Some pc).
Proof.
  intros Hp Hi. destruct i as [socket clock ev|k clock res]; simpl.
  - destruct ev as [rc username recipe|text|S|d|q|ph f|]; simpl.
    + destruct (rooms st !! rc) as [l|] eqn:Hrc.
      * destruct (rooms_get st rc) as [[l' room]|] eqn:Hr.
        -- destruct (decide (length (Room.participants room) < 8)).
           ++ by rewrite (join_room_present _ _ _ _ _ _ _ Hr) by done.
           ++ by rewrite (join_room_full _ _ _ _ _ _ _ Hr) by lia.
        -- unfold on_join_room, create_room_if_absent. by rewrite Hrc, Hr.
      * by rewrite (join_room_absent _ _ _ _ _ Hrc).
    + unfold on_chat_message. destruct (users st !! socket); [|done].
      by destruct (rooms_get st _) as [[l room]|].
    + unfold on_next_step. destruct (users st !! socket); [|done].
      destruct (rooms_get st _) as [[l room]|]; [|done].
      by destruct (find_participant _ _) as [[j p]|].
    + unfold on_start_timer. by destruct (users st !! socket).
    + unfold on_ai_question. destruct (users st !! socket); [|done].
      destruct (rooms_get st _) as [[l room]|]; [|done]. simpl.
      rewrite lookup_app_l; [done|]. by eapply lookup_lt_Some.
    + unfold on_share_photo. by destruct (users st !! socket).
    + unfold on_disconnect. destruct (users st !! socket); [|done]. simpl.
      destruct (rooms_get st _) as [[l room]|]; [|done].
      simpl. by case_bool_decide.
  - simpl in Hi. apply bool_decide_eq_false_1 in Hi.
    destruct (pending st !! k) as [[pc'|]|]; [|done..].
    assert (pending (state (on_ai_settled pc' clock res
              (set_pending (<[k:=None]> (pending st)) st)))
            = <[k:=None]> (pending st)) as ->.
    { unfold on_ai_settled. destruct res; [done|].
      by destruct (rooms_get _ _) as [[l room]|]. }
    by rewrite list_lookup_insert_ne.
Qed.

Lemma pending_run_other call pc ins : ∀ st,
  pending st !! call = Some (Some pc) →
  forallb (negb ∘ settles call) ins = true →
  pending (state (run st ins)) !! call = Some (Some pc).
Proof.
  induction ins as [|i ins IH]; intros st Hp Hall; [done|].
  simpl in Hall. apply andb_prop in Hall as [Hi Hall].
  apply negb_true_iff in Hi.
  pose proof (pending_step_other st i call pc Hp Hi) as Hp1.
  rewrite run_cons. destruct (completion (step st i)); [|done].
  simpl. by apply IH.
Qed.

(** X13. A registered connection asks the assistant; any inputs
    follow (chat, steps, joins, disconnects, other questions and answers)
    before the call settles.  If the room code then still refers to the same
    room, the settling returns, whether the call succeeded or failed, and
    appends exactly one message of type [ai], authored by the assistant,
    after everything logged meanwhile, and broadcasts it to the room.  Its
    body is the answer, or the fallback text on failure. *)
Theorem ai_answer_lands_after_interleaving
    st socket clock q user l room ins clock' outcome :
  users st !! socket = Some user →
  rooms_get st (User.roomCode user) = Some (l, room) →
  let rc := User.roomCode user in
  let call := length (pending st) in
  let st1 := state (step st (FromSocket socket clock (AiQuestion q))) in
  forallb (negb ∘ settles call) ins = true →
  let st2 := state (run st1 ins) in
  rooms st2 !! rc = Some l →
  let res := step st2 (AiSettled call clock' outcome) in
  let body :=
    match outcome with AiAnswered text => text | AiFailed => fallback_text end in
  let m := Message.mk (now clock') ai_chef body (localeTime clock') Message.ai in
  ∃ room2,
    rooms_get st2 rc = Some (l, room2) ∧
    Room.messages room `prefix_of` Room.messages room2 ∧
    completion res = Returned ∧
    effects res = [EmitRoom rc (new_message m)] ∧
    rooms_get (state res) rc = Some (l, Room.push_message m room2).
Proof.
  intros Hu Hr rc call st1 Hall st2 Hrc2 res body m.
  set (pc := Pending.mk socket user l).
  assert (st1 = set_pending (pending st ++ [Some pc]) st) as Hst1.
  { unfold st1. simpl step. by rewrite (ai_question_registered _ _ _ _ _ _ Hu Hr). }
  assert (pending st1 !! call = Some (Some pc)) as Hp1.
  { rewrite Hst1. simpl. unfold call. by rewrite lookup_app_r, Nat.sub_diag. }
  pose proof (pending_run_other call pc ins st1 Hp1 Hall) as Hp2.
  fold st2 in Hp2.
  pose proof Hr as [_ Hl]%rooms_get_Some.
  assert (heap st1 !! l = Some room) as Hl1 by by rewrite Hst1.
  destruct (run_log ins _ _ _ Hl1) as (room2 & Hl2 & Hpre). fold st2 in Hl2.
  assert (rooms_get st2 rc = Some (l, room2)) as Hr2 by by apply rooms_get_Some.
  destruct (ai_settled_in_live_room st2 call pc clock' outcome room2 Hp2 Hr2)
    as (Hc & He & Hr3 & _).
  exists room2. by split_and!.
Qed.

Lemma ai_answer_lands_after_interleaving_witness :
  let st1 := state (step two_cooks (FromSocket "s1" noon (AiQuestion "Salt?"))) in
  let st2 := state (run st1 [FromSocket "s2" noon (ChatMessage "me too");
                             FromSocket "s1" noon Disconnect]) in
  let res := step st2 (AiSettled 0 noon AiFailed) in
  completion res = Returned ∧
  Message.message <$> messages_of (state res) "ABC1"
  = ["me too"; fallback_text].
Proof.
  destruct (ai_answer_lands_after_interleaving two_cooks "s1" noon "Salt?"
              (User.mk "ABC1" "Alice") 0
              (Room.mk [Participant.mk "s1" "Alice" 0 false;
                        Participant.mk "s2" "Bob" 0 false] soup None [] 0)
              [FromSocket "s2" noon (ChatMessage "me too");
               FromSocket "s1" noon Disconnect] noon AiFailed)
    as (room2 & _ & _ & Hc & _ & _);
    [vm_compute; reflexivity..|].
  split; [exact Hc|]. vm_compute. reflexivity.
Defined.

(** ** Join, then chat; leave, then join *)

(** X14. In every state the server reaches, once a join for a room
    code with fewer than 8 participants (or none yet) has been processed, a
    chat message of that connection returns, is broadcast to that room code
    under the name given in the join, and is the last message of that room's
    log, after all that was there before. *)
Theorem join_then_chat ins socket clock clock' rc username recipe text :
  let st := state (run init ins) in
  length (participants_of st rc) < 8 →
  let st1 :=
    state (step st (FromSocket socket clock (JoinRoom rc username recipe))) in
  let res := step st1 (FromSocket socket clock' (ChatMessage text)) in
  let m := Message.mk (now clock') username text (localeTime clock')
             Message.user in
  completion res = Returned ∧
  effects res = [EmitRoom rc (new_message m)] ∧
  messages_of (state res) rc = (messages_of st rc ++ [m])%list.
Proof.
  intros st Hcap st1 res m. pose proof (wf_run ins) as W. fold st in W.
  assert (∃ l room1,
            users st1 !! socket = Some (User.mk rc username) ∧
            rooms_get st1 rc = Some (l, room1) ∧
            Room.messages room1 = messages_of st rc) as (l & room1 & Hu1 & Hr1 & Hm).
  { subst st1. simpl step. unfold participants_of, messages_of in *.
    destruct (rooms st !! rc) as [l|] eqn:Hrc.
    - destruct (wf_rooms _ W _ _ Hrc) as (room & Hl & _).
      assert (rooms_get st rc = Some (l, room)) as Hr by by apply rooms_get_Some.
      rewrite Hr in Hcap |- *.
      rewrite (join_room_present _ _ _ _ _ _ _ Hr) by done. simpl.
      eexists l, _. split_and!; [by rewrite lookup_insert_eq| |].
      + by apply (rooms_get_insert _ _ _ room).
      + done.
    - rewrite (rooms_get_None _ _ Hrc).
      rewrite (join_room_absent _ _ _ _ _ Hrc). simpl.
      eexists _, _. split_and!; [by rewrite lookup_insert_eq| |].
      + apply rooms_get_Some. simpl. split; [by rewrite lookup_insert_eq|].
        apply heap_snoc_lookup.
      + done. }
  subst res. simpl step.
  rewrite (chat_message_registered _ _ _ _ _ _ _ Hu1 Hr1). simpl.
  split_and!; [done..|]. unfold messages_of at 1.
  rewrite (rooms_get_insert _ _ _ _ _ _ _ Hr1). simpl. by rewrite Hm.
Qed.

Lemma join_then_chat_witness :
  let st1 := state (step two_cooks (join_ev "s1" "XYZ9" "Al" None)) in
  effects (step st1 (FromSocket "s1" noon (ChatMessage "new room")))
  = [EmitRoom "XYZ9"
       (new_message (Message.mk 1700000000000 "Al" "new room" "12:00:00 PM"
                       Message.user))].
Proof.
  refine (proj1 (proj2 (join_then_chat
    [join_ev "s1" "ABC1" "Alice" soup; join_ev "s2" "ABC1" "Bob" stew]
    "s1" noon noon "XYZ9" "Al" None "new room" _))).
  vm_compute. lia.
Defined.

(** X15. In every state the server reaches, after the disconnect of a
    registered connection a join for the room code it was registered in is
    never rejected: the disconnect took at least one entry out, so the room
    has room again (or is gone and is created anew).  The joiner is appended
    after the entries that remained. *)
Theorem disconnect_frees_a_slot
    ins socket clock user socket' clock' username' recipe' :
  let st := state (run init ins) in
  users st !! socket = Some user →
  let rc := User.roomCode user in
  let st1 := state (step st (FromSocket socket clock Disconnect)) in
  let res := step st1 (FromSocket socket' clock' (JoinRoom rc username' recipe')) in
  (length (participants_of st1 rc) < 8) ∧
  users (state res) !! socket' = Some (User.mk rc username') ∧
  participants_of (state res) rc =
    (participants_of st1 rc ++ [Participant.mk socket' username' 0 false])%list ∧
  ∃ r ms,
    effects res =
      [SocketJoin socket' rc;
       EmitRoom rc (user_joined (participants_of (state res) rc) r ms)].
Proof.
  intros st Hu rc st1 res. pose proof (wf_run ins) as W. fold st in W.
  destruct (wf_users _ W _ _ Hu) as (l & room & Hrc & Hl & Hin).
  assert (rooms_get st rc = Some (l, room)) as Hr by by apply rooms_get_Some.
  assert (within_capacity room) as Hcap.
  { pose proof (run_within_capacity ins) as Hall. fold st in Hall.
    by eapply Forall_lookup in Hall. }
  set (rest := filter (λ p, Participant.id p ≠ socket) (Room.participants room)).
  assert (length rest < 8) as Hlt.
  { apply list_elem_of_fmap in Hin as (p & Hid & Hp).
    eapply Nat.lt_le_trans; [|exact Hcap].
    apply (length_filter_lt _ _ p); [done|]. intros Hne. by apply Hne. }
  assert (st1 = state (on_disconnect socket st)) as Hst1 by done.
  rewrite (disconnect_registered _ _ _ _ _ Hu Hr) in Hst1. fold rest in Hst1.
  simpl in Hst1. subst res. simpl step. unfold participants_of.
  destruct (decide (rest = [])) as [Hnil|Hne].
  - assert (rooms st1 !! rc = None) as Hrc1.
    { rewrite Hst1. simpl. rewrite Hnil. simpl. apply lookup_delete_eq. }
    rewrite (rooms_get_None _ _ Hrc1).
    rewrite (join_room_absent _ _ _ _ _ Hrc1). simpl.
    set (st2 := mkState _ _ _ _).
    assert (rooms_get st2 rc = Some (length (heap st1),
              Room.push_participant (Participant.mk socket' username' 0 false)
                (Room.create recipe'))) as ->.
    { apply rooms_get_Some. simpl. split; [by rewrite lookup_insert_eq|].
      apply heap_snoc_lookup. }
    split_and!; [lia|by apply lookup_insert_eq|done|by eexists _, _].
  - assert (rooms_get st1 rc = Some (l, Room.set_participants rest room)) as Hr1.
    { rewrite Hst1. rewrite bool_decide_eq_false_2 by (by destruct rest).
      by apply (rooms_get_insert _ _ _ room). }
    rewrite Hr1. rewrite (join_room_present _ _ _ _ _ _ _ Hr1) by done.
    simpl. rewrite (rooms_get_insert _ _ _ _ _ _ _ Hr1). simpl.
    split_and!; [done|by apply lookup_insert_eq|done|by eexists _, _].
Qed.

Lemma disconnect_frees_a_slot_witness :
  let full := state (run init (replicate 7 (join_ev "s1" "R" "Alice" soup)
                               ++ [join_ev "s2" "R" "Bob" stew])) in
  let st1 := state (step full (FromSocket "s2" noon Disconnect)) in
  effects (step full (join_ev "s9" "R" "Ivy" None))
    = [EmitSocket "s9" (room_full room_full_text)] ∧
  users (state (step st1 (join_ev "s9" "R" "Ivy" None))) !! "s9"
    = Some (User.mk "R" "Ivy").
Proof.
  split; [vm_compute; reflexivity|].
  refine (proj1 (proj2 (disconnect_frees_a_slot
    (replicate 7 (join_ev "s1" "R" "Alice" soup) ++ [join_ev "s2" "R" "Bob" stew])
    "s2" noon (User.mk "R" "Bob") "s9" noon "Ivy" None _))).
  vm_compute. reflexivity.
Defined.

(** ** An answer for a room that is gone *)





